(** * carbonapi: a shallow embedding of the query pipeline

    The development follows the Go sources:
    - [cairo.go]: the consolidation of a series ([AggregatedValues],
      [consolidateDataPoints]) and the unit formatting ([formatUnits]);
    - [cache.go]: the bytes caches ([nullCache], [expireCache],
      [memcachedCache]);
    - [main.go]: the HTTP handlers ([renderHandler], [findCompleter]).

    Go's [float64] is Rocq's primitive binary64 float, Go's [int32] and [int]
    are [Z] with the wrap-around written out, Go's [string] and [[]byte] are
    [string] (a list of bytes), Go's [map] is stdpp's [gmap], a runtime panic
    is [None]. *)

From Stdlib Require Import Ascii ZArith Floats Uint63.
From stdpp Require Import gmap strings list sorting pretty.

#[local] Open Scope Z_scope.

(** ** Go's numeric types *)

Module GoNum.

(** [int32(x)]: the conversion of an integer to 32 bits, two's complement. *)
Definition wrap32 (x : Z) : Z := (x + 2 ^ 31) `mod` 2 ^ 32 - 2 ^ 31.

Definition minInt64 : Z := - 2 ^ 63.
Definition maxInt64 : Z := 2 ^ 63 - 1.

(** [a / b] on [int32]: truncated division; a zero divisor panics, and
    [-2^31 / -1] wraps. *)
Definition div32 (a b : Z) : option Z :=
  if decide (b = 0) then None else Some (wrap32 (Z.quot a b)).

(** [float64(n)] for an [int64] [n]: the magnitude goes through the
    63-bit [of_uint63]; that of [-2^63] does not fit, and its float is the
    power of two itself. *)
Definition float64_of_int (n : Z) : float :=
  if decide (n = minInt64) then PrimFloat.opp 0x1p63%float
  else if decide (n < 0)
  then PrimFloat.opp (PrimFloat.of_uint63 (Uint63.of_Z (- n)))
  else PrimFloat.of_uint63 (Uint63.of_Z n).

(** The integer part of a finite float, rounded towards zero. *)
Definition truncZ (f : float) : option Z :=
  match Prim2SF f with
  | S754_zero _ => Some 0
  | S754_finite s m e =>
      let a := if decide (0 ≤ e) then Z.pos m * 2 ^ e else Z.pos m `div` 2 ^ (- e) in
      Some (if s then - a else a)
  | _ => None
  end.

(** [int(f)] on amd64: truncation, and the "integer indefinite" value
    [-2^63] for NaN, infinities and values out of range. *)
Definition int_of_float64 (f : float) : Z :=
  match truncZ f with
  | Some z => if decide (minInt64 ≤ z ≤ maxInt64) then z else minInt64
  | None => minInt64
  end.

(** [math.Floor]: special values and integral values are returned as they
    are. A float with a negative exponent has a magnitude below [2^53], so
    its floor converts back exactly; a zero floor keeps the sign of the
    argument. *)
Definition Floor (f : float) : float :=
  match Prim2SF f with
  | S754_finite s m e =>
      if decide (0 ≤ e) then f
      else
        let q := Z.pos m `div` 2 ^ (- e) in
        if decide (Z.pos m `mod` 2 ^ (- e) = 0) then f
        else if s then float64_of_int (- (q + 1))
        else float64_of_int q
  | _ => f
  end.

(** [math.Ceil(x)] is [-Floor(-x)], as in Go's [math] package. *)
Definition Ceil (f : float) : float := PrimFloat.opp (Floor (PrimFloat.opp f)).

End GoNum.

(** ** cairo.go *)

Module Cairo.
Import GoNum.

(** The series type. [metricData] embeds the zipper's [FetchResponse]
    ([Name], [StartTime], [StopTime], [StepTime], [Values], [IsAbsent]) and
    adds the consolidation fields. The rendering attributes (colour, line
    width, ...) play no role here and are left out. A [nil]
    [aggregatedValues] is [None]. *)
Record metricData := MetricData {
  Name : string;
  StartTime : Z;
  StopTime : Z;
  StepTime : Z;
  Values : list float;
  IsAbsent : list bool;
  valuesPerPoint : Z;
  xStep : float;
  aggregatedValues : option (list float)
}.

Definition set_aggregatedValues (a : option (list float)) (r : metricData) : metricData :=
  MetricData (Name r) (StartTime r) (StopTime r) (StepTime r) (Values r)
    (IsAbsent r) (valuesPerPoint r) (xStep r) a.

Definition set_consolidation (vpp : Z) (xs : float) (r : metricData) : metricData :=
  MetricData (Name r) (StartTime r) (StopTime r) (StepTime r) (Values r)
    (IsAbsent r) vpp xs (aggregatedValues r).

(** [s[k:]] on a slice of length [length s]: panics when [k] exceeds it. *)
Definition sliceFrom {A} (k : nat) (s : list A) : option (list A) :=
  if decide (k ≤ length s)%nat then Some (drop k s) else None.

(** The branch [valuesPerPoint == 1 || valuesPerPoint == 0]:
    [for i, vv := range r.Values { if r.IsAbsent[i] { vv = NaN }; v[i] = vv }]. *)
Fixpoint rawCopy (i : nat) (vs : list float) (absent : list bool) : option (list float) :=
  match vs with
  | [] => Some []
  | vv :: vs' =>
      a ← absent !! i;
      rest ← rawCopy (S i) vs' absent;
      Some ((if a : bool then nan else vv) :: rest)
  end.

(** The test and update [if !math.IsNaN(x) && !absent[i] { sum += x; n++ }];
    [absent[i]] is read only when [x] is not NaN. *)
Definition accumulate (x : float) (a : option bool) (acc : float * Z) : option (float * Z) :=
  if PrimFloat.is_nan x then Some acc
  else
    b ← a;
    Some (if b : bool then acc else ((acc.1 + x)%float, acc.2 + 1)).

(** One iteration of [for i := 0; i < r.valuesPerPoint; i++]. *)
Definition bucketStep (v : list float) (absent : list bool)
    (acc : option (float * Z)) (i : nat) : option (float * Z) :=
  acc ← acc;
  x ← v !! i;
  accumulate x (absent !! i) acc.

(** The loop [for len(v) >= r.valuesPerPoint]. Every iteration drops
    [vpp >= 1] values, so [length v] iterations are enough; [fuel] counts
    them down. The result is the list of averages and what is left of [v]
    and [absent]. *)
Fixpoint fullBuckets (fuel vpp : nat) (v : list float) (absent : list bool)
    (avg : list float) : option (list float * list float * list bool) :=
  if decide (vpp ≤ length v)%nat then
    match fuel with
    | O => None
    | S fuel' =>
        acc ← foldl (bucketStep v absent) (Some (0%float, 0)) (seq 0 vpp);
        absent' ← sliceFrom vpp absent;
        fullBuckets fuel' vpp (drop vpp v) absent'
          (avg ++ [(acc.1 / float64_of_int acc.2)%float])
    end
  else Some (avg, v, absent).

(** The loop [for len(v) > 0] over the trailing partial bucket. *)
Fixpoint tailBucket (v : list float) (absent : list bool) (acc : float * Z)
    : option (float * Z) :=
  match v with
  | [] => Some acc
  | x :: v' =>
      acc' ← accumulate x (absent !! 0%nat) acc;
      absent' ← sliceFrom 1 absent;
      tailBucket v' absent' acc'
  end.

(** The body of [AggregatedValues] after the test of the memo. A negative
    [valuesPerPoint] panics: either [make] gets a negative capacity or the
    first [v[r.valuesPerPoint:]] has a negative bound. *)
Definition computeAggregated (r : metricData) : option (list float) :=
  let vpp := valuesPerPoint r in
  if decide (vpp = 1 ∨ vpp = 0) then rawCopy 0 (Values r) (IsAbsent r)
  else if decide (vpp < 0) then None
  else
    '(avg, v, absent) ← fullBuckets (S (length (Values r))) (Z.to_nat vpp)
                          (Values r) (IsAbsent r) [];
    if decide (0 < length v)%nat then
      acc ← tailBucket v absent (0%float, 0);
      Some (avg ++ [(acc.1 / float64_of_int acc.2)%float])
    else Some avg.

(** [func (r *metricData) AggregatedValues() []float64]: the returned slice
    and the series after the call (the receiver is a pointer). *)
Definition AggregatedValues (r : metricData) : option (list float * metricData) :=
  match aggregatedValues r with
  | Some a => Some (a, r)
  | None =>
      a ← computeAggregated r;
      Some (a, set_aggregatedValues (Some a) r)
  end.

(** [func (r *metricData) AggregatedTimeStep() int32]. *)
Definition AggregatedTimeStep (r : metricData) : Z :=
  if decide (valuesPerPoint r = 1 ∨ valuesPerPoint r = 0) then StepTime r
  else wrap32 (StepTime r * wrap32 (valuesPerPoint r)).

(** The fields of [Params] that [consolidateDataPoints] reads and writes. *)
Record Params := MkParams {
  area_xmin : float;
  area_xmax : float;
  lineWidth : float;
  timeRange : Z;
  graphWidth : Z
}.

Definition numberOfPixels (params : Params) : float :=
  (area_xmax params - area_xmin params - (lineWidth params + 1))%float.

(** The body of the loop of [consolidateDataPoints] for one series. The
    integer division [params.timeRange / series.GetStepTime()] panics on a
    zero step. *)
Definition consolidateSeries (params : Params) (series : metricData) : option metricData :=
  let numberOfPixels := numberOfPixels params in
  q ← div32 (timeRange params) (StepTime series);
  let numberOfDataPoints := Floor (float64_of_int q) in
  let minXStep := 1%float in
  let divisor := (float64_of_int (timeRange params) / float64_of_int (StepTime series))%float in
  let bestXStep := (numberOfPixels / divisor)%float in
  if (bestXStep <? minXStep)%float then
    let drawableDataPoints := int_of_float64 (numberOfPixels / minXStep)%float in
    let pointsPerPixel := Ceil (numberOfDataPoints / float64_of_int drawableDataPoints)%float in
    Some (set_consolidation (int_of_float64 pointsPerPixel)
            ((numberOfPixels * pointsPerPixel) / numberOfDataPoints)%float series)
  else Some (set_consolidation 1 bestXStep series).

(** [consolidateDataPoints]: [graphWidth] is set, then every series is
    consolidated in turn. *)
Definition consolidateDataPoints (params : Params) (results : list metricData)
    : option (Params * list metricData) :=
  results' ← mapM (consolidateSeries params) results;
  Some (MkParams (area_xmin params) (area_xmax params) (lineWidth params)
          (timeRange params) (int_of_float64 (numberOfPixels params)), results').

(** The unit prefixes. *)
Record unitPrefix := UnitPrefix { prefix : string; size : Z }.

Definition unitSystems : gmap string (list unitPrefix) :=
  <["binary" := [ UnitPrefix "Pi" 1125899906842624;
                  UnitPrefix "Ti" 1099511627776;
                  UnitPrefix "Gi" 1073741824;
                  UnitPrefix "Mi" 1048576;
                  UnitPrefix "Ki" 1024 ]]>
  (<["si" := [ UnitPrefix "P" 1000000000000000;
               UnitPrefix "T" 1000000000000;
               UnitPrefix "G" 1000000000;
               UnitPrefix "M" 1000000;
               UnitPrefix "K" 1000 ]]> ∅).

(** [if (x - math.Floor(x)) < 0.00000000001 && v > 1 { x = math.Floor(x) }];
    the decimal constant is the double [0x1.5fd7fe1796495p-37]. *)
Definition roundIfIntegral (x v : float) : float :=
  if ((x - Floor x) <? 0x1.5fd7fe1796495p-37)%float && (1 <? v)%float then Floor x else x.

(** The loop [for _, p := range unitsystem] of [formatUnits] under a given
    [condition]. *)
Fixpoint formatUnitsLoop (condition : float → bool) (v : float)
    (unitsystem : list unitPrefix) : float * string :=
  match unitsystem with
  | [] => (roundIfIntegral v v, "")
  | p :: rest =>
      let fsize := float64_of_int (size p) in
      if condition fsize then (roundIfIntegral (v / fsize)%float v, prefix p)
      else formatUnitsLoop condition v rest
  end.

(** The two conditions of [formatUnits]. [a >= b] on floats is [b <=? a]. *)
Definition conditionValue (v : float) (size : float) : bool :=
  (size <=? PrimFloat.abs v)%float.

Definition conditionValueStep (v step : float) (size : float) : bool :=
  (size <=? PrimFloat.abs v)%float && (size <=? step)%float.

(** [formatUnits]: the guard is the comparison [step == math.NaN()]. A
    system that is not in [unitSystems] yields the [nil] slice. *)
Definition formatUnits (v step : float) (system : string) : float * string :=
  let condition :=
    if (step =? nan)%float then conditionValue v else conditionValueStep v step in
  let unitsystem := default [] (unitSystems !! system) in
  formatUnitsLoop condition v unitsystem.

(** *** The consolidation in the words of the specification

    The values of a bucket that count are those that are neither NaN nor
    flagged absent; their mean is their sum, added from the left starting
    at zero, over their number. *)
Fixpoint presentValues (vs : list float) (absent : list bool) : list float :=
  match vs, absent with
  | x :: vs', a :: absent' =>
      if negb (PrimFloat.is_nan x) && negb a
      then x :: presentValues vs' absent'
      else presentValues vs' absent'
  | _, _ => []
  end.

Definition fsum (l : list float) : float := foldl PrimFloat.add 0%float l.

Definition mean (l : list float) : float :=
  (fsum l / float64_of_int (Z.of_nat (length l)))%float.

(** The [j]-th bucket of [vpp] consecutive slots; the last one is shorter
    when [vpp] does not divide the length. *)
Definition bucket {A} (vpp j : nat) (l : list A) : list A :=
  take vpp (drop (j * vpp) l).

Definition bucketMean (r : metricData) (j : nat) : float :=
  let vpp := Z.to_nat (valuesPerPoint r) in
  mean (presentValues (bucket vpp j (Values r)) (bucket vpp j (IsAbsent r))).

(** The number of buckets, [ceil(len(Values) / valuesPerPoint)]. *)
Definition bucketCount (r : metricData) : Z :=
  (Z.of_nat (length (Values r)) + valuesPerPoint r - 1) `div` valuesPerPoint r.

(** The invariant of the data model on the memo: [aggregatedValues], if
    set, is what [AggregatedValues] computes from the current fields. *)
Definition memoValid (r : metricData) : Prop :=
  ∀ a, aggregatedValues r = Some a → computeAggregated r = Some a.

(** The operations of cairo.go on one series: [consolidateDataPoints] under
    some [Params], and [AggregatedValues]. [runOps] collects what each call
    of [AggregatedValues] returns, together with the [valuesPerPoint] in
    effect at that call. *)
Inductive seriesOp :=
| OpConsolidate (params : Params)
| OpAggregatedValues.

Fixpoint runOps (ops : list seriesOp) (r : metricData)
    : option (list (Z * list float) * metricData) :=
  match ops with
  | [] => Some ([], r)
  | OpConsolidate params :: ops' =>
      r' ← consolidateSeries params r;
      runOps ops' r'
  | OpAggregatedValues :: ops' =>
      '(a, r') ← AggregatedValues r;
      '(outs, r'') ← runOps ops' r';
      Some ((valuesPerPoint r, a) :: outs, r'')
  end.

End Cairo.

(** ** Go's strings, [strconv] and [net/url] *)

Module GoStr.
Import GoNum.

Definition byteOf (a : Ascii.ascii) : Z := Z.of_N (Ascii.N_of_ascii a).

(** [strings.LastIndex(s, string(c))]: [None] is Go's [-1]. *)
Fixpoint LastIndexByte (c : Ascii.ascii) (s : string) : option nat :=
  match s with
  | EmptyString => None
  | String a s' =>
      match LastIndexByte c s' with
      | Some i => Some (S i)
      | None => if Ascii.eqb a c then Some O else None
      end
  end.

(** [s[k:]] and [s[:k]] on a string, for [k <= len(s)]. *)
Fixpoint sliceFromStr (k : nat) (s : string) : string :=
  match k, s with
  | O, _ => s
  | S k', String _ s' => sliceFromStr k' s'
  | S _, EmptyString => EmptyString
  end.

Fixpoint sliceToStr (k : nat) (s : string) : string :=
  match k, s with
  | S k', String a s' => String a (sliceToStr k' s')
  | _, _ => EmptyString
  end.

(** [strings.Join]. *)
Fixpoint Join (elems : list string) (sep : string) : string :=
  match elems with
  | [] => ""
  | [x] => x
  | x :: rest => x +:+ sep +:+ Join rest sep
  end.

(** [fmt.Sprintf("%-20s", s)]: padding on the right up to 20 bytes. *)
Definition padRight (width : nat) (s : string) : string :=
  s +:+ String.concat "" (replicate (width - String.length s) " ").

Definition hexDigit (upper : bool) (d : Z) : Ascii.ascii :=
  Ascii.ascii_of_N (Z.to_N (if decide (d < 10) then 48 + d
                      else if upper then 55 + d else 87 + d)).

Definition hexByte (upper : bool) (a : Ascii.ascii) : string :=
  String (hexDigit upper (byteOf a `div` 16))
    (String (hexDigit upper (byteOf a `mod` 16)) "").

(** [fmt.Sprintf("%x", b)] on a byte array. *)
Fixpoint hexString (b : string) : string :=
  match b with
  | EmptyString => ""
  | String a b' => hexByte false a +:+ hexString b'
  end.

(** [strconv.Atoi] with a 64-bit [int]: an optional sign, then one or more
    decimal digits, and a range check. [None] is the error. *)
Definition digit (a : Ascii.ascii) : option Z :=
  if decide (48 ≤ byteOf a ≤ 57) then Some (byteOf a - 48) else None.

Fixpoint digits (acc : Z) (s : string) : option Z :=
  match s with
  | EmptyString => Some acc
  | String a s' => d ← digit a; digits (acc * 10 + d) s'
  end.

Definition Atoi (s : string) : option Z :=
  match s with
  | EmptyString => None
  | String c rest =>
      let neg := Ascii.eqb c "-"%char in
      let body := if Ascii.eqb c "-"%char || Ascii.eqb c "+"%char then rest else s in
      if decide (body = "") then None
      else
        n ← digits 0 body;
        let z := if neg then - n else n in
        if decide (minInt64 ≤ z ≤ maxInt64) then Some z else None
  end.

(** [url.QueryEscape]: letters, digits and [-_.~] are kept, a space becomes
    [+], every other byte becomes [%XX]. *)
Definition unreserved (a : Ascii.ascii) : bool :=
  let n := byteOf a in
  bool_decide (97 ≤ n ≤ 122) || bool_decide (65 ≤ n ≤ 90) || bool_decide (48 ≤ n ≤ 57)
  || bool_decide (n = 45) || bool_decide (n = 95) || bool_decide (n = 46)
  || bool_decide (n = 126).

Fixpoint QueryEscape (s : string) : string :=
  match s with
  | EmptyString => ""
  | String a s' =>
      (if unreserved a then String a ""
       else if Ascii.eqb a " "%char then "+"
       else String "%"%char (hexByte true a)) +:+ QueryEscape s'
  end.

(** [url.Values] is [map[string][]string]. *)
Abbreviation UrlValues := (gmap string (list string)).

(** [v[key] = append(v[key], value)], the insertion of [url.ParseQuery]. *)
Definition Add (key value : string) (v : UrlValues) : UrlValues :=
  <[key := default [] (v !! key) ++ [value]]> v.

(** The form of a request, from its decoded parameters in the order of the
    query string. *)
Definition parseParams (ps : list (string * string)) : UrlValues :=
  foldl (λ v kv, Add kv.1 kv.2 v) ∅ ps.

(** [v.Get(key)], which [r.FormValue(key)] returns on a parsed form: the
    first value of [key], or the empty string. *)
Definition Get (v : UrlValues) (key : string) : string :=
  match v !! key with
  | Some (x :: _) => x
  | _ => ""
  end.

(** [v.Del(key)]. *)
Definition Del (key : string) (v : UrlValues) : UrlValues := delete key v.

(** The order of [sort.Strings]: bytewise lexicographic. *)
Definition strLe (a b : string) : Prop := String.leb a b = true.

#[global] Instance strLe_dec a b : Decision (strLe a b).
Proof. unfold strLe. apply _. Defined.

Definition sortedKeys (v : UrlValues) : list string :=
  merge_sort strLe (map fst (map_to_list v)).

(** [v.Encode()]: the keys in sorted order and, for every key, its values in
    their order, as [key=value] joined by [&]. *)
Definition encodePair (keyEscaped : string) (buf value : string) : string :=
  (if decide (0 < String.length buf)%nat then buf +:+ "&" else buf)
  +:+ keyEscaped +:+ "=" +:+ QueryEscape value.

Definition encodeKey (v : UrlValues) (buf k : string) : string :=
  foldl (encodePair (QueryEscape k)) buf (default [] (v !! k)).

Definition Encode (v : UrlValues) : string :=
  foldl (encodeKey v) "" (sortedKeys v).

(** The values a list of parameters gives to [key], in their order. *)
Definition valuesOf (key : string) (ps : list (string * string)) : list string :=
  (filter (λ kv, kv.1 = key) ps).*2.


End GoStr.

(** ** cache.go *)

Module Cache.
Import GoNum GoStr.

(** [type bytesCache interface]: [get] returns [Some v] for [(v, true)] and
    [None] for [(nil, false)]; [set] returns the cache after the call. *)
Class bytesCache (C : Type) := {
  get : C → string → option string;
  set : C → string → string → Z → C
}.

(** [type nullCache struct{}]. *)
Inductive nullCache := NullCache.

#[global] Instance nullCache_bytesCache : bytesCache nullCache := {|
  get _ _ := None;
  set c _ _ _ := c
|}.

(** [type expireCache struct { ec *ecache.Cache }]. The store of the
    external go-expirecache library is a finite map from a key to its value
    and expiry; no time passes while one request is handled, so no entry
    expires and none is evicted. *)
Record expireCache := ExpireCache { ec : gmap string (string * Z) }.

#[global] Instance expireCache_bytesCache : bytesCache expireCache := {|
  get c k := fst <$> ec c !! k;
  set c k v expire := ExpireCache (<[k := (v, expire)]> (ec c))
|}.

(** [memcache.Item] and the outcome of [client.Get]. *)
Record Item := MkItem { Key : string; Value : string; Expiration : Z }.

Inductive getReply :=
| GetOk (item : Item)
| GetErr (err : string).

(** One run of [client.Get]: it returns after [latency] nanoseconds, or it
    never returns. *)
Inductive clientRun :=
| Returns (latency : Z) (reply : getReply)
| Hangs.

(** [type memcachedCache struct { client *memcache.Client }]: the client
    is the function from the key it is asked for to its run. *)
Record memcachedCache := MemcachedCache { client : string → clientRun }.

Definition Millisecond : Z := 1000000.

(** The cases of the [select] in [get]. The case that is ready first is
    taken; when the reply arrives at the very instant of the deadline both
    are ready and [tie] is the choice of the runtime. *)
Inductive selectCase := caseTimeout | caseDone.

Definition selectFires (run : clientRun) (tie : selectCase) : selectCase :=
  match run with
  | Hangs => caseTimeout
  | Returns latency _ =>
      if decide (latency < 50 * Millisecond) then caseDone
      else if decide (50 * Millisecond < latency) then caseTimeout
      else tie
  end.

(** What one call of [memcachedCache.get] does: the keys it passed to the
    client, the value of [Metrics.MemcacheTimeouts] after the call, and the
    result. *)
Record getOutcome := GetOutcome {
  clientKeys : list string;
  timeoutsAfter : Z;
  result : option string
}.

Section memcached.

(** [crypto/md5]: [md5.Sum] as a function to the 16 bytes of the digest. *)
Variable md5Sum : string → string.

(** [hk := fmt.Sprintf("%x", md5.Sum([]byte(k)))]. *)
Definition hashKey (k : string) : string := hexString (md5Sum k).

(** [func (m *memcachedCache) get(k string) ([]byte, bool)]. *)
Definition memcachedCache_get (m : memcachedCache) (tie : selectCase)
    (timeouts : Z) (k : string) : getOutcome :=
  let hk := hashKey k in
  let run := client m hk in
  match selectFires run tie with
  | caseTimeout => GetOutcome [hk] (timeouts + 1) None
  | caseDone =>
      match run with
      | Returns _ (GetOk item) => GetOutcome [hk] timeouts (Some (Value item))
      | _ => GetOutcome [hk] timeouts None
      end
  end.

(** [func (m *memcachedCache) set(k string, v []byte, expire int32)]: the
    item handed to [client.Set] in the background. *)
Definition memcachedCache_set (k v : string) (expire : Z) : Item :=
  MkItem (hashKey k) v expire.

End memcached.

End Cache.

(** ** main.go *)

Module Main.
Import GoNum GoStr Cache Cairo.

Definition newline : string := String (Ascii.ascii_of_N 10) "".
Definition dquote : string := String (Ascii.ascii_of_N 34) "".

(** The zipper's [GlobMatch] and [GlobResponse]. *)
Record GlobMatch := MkGlobMatch { Path : string; IsLeaf : bool }.
Record GlobResponse := MkGlobResponse { GlobName : string; Matches : list GlobMatch }.

(** [type metricRequest struct { metric string; from, until int32 }], the
    key of [metricMap]. *)
Record metricRequest := MetricRequest { metric : string; from : Z; until : Z }.

#[global] Instance metricRequest_eq_dec : EqDecision metricRequest.
Proof. solve_decision. Defined.

#[global] Instance metricRequest_countable : Countable metricRequest.
Proof.
  refine (inj_countable' (λ m, (metric m, from m, until m))
            (λ t, MetricRequest t.1.1 t.1.2 t.2) _).
  by intros [].
Defined.

(** The calls a handler makes to the zipper, in the order it issues them. *)
Inductive zipperCall :=
| CallFind (query : string)
| CallRender (path : string) (from until : Z).

#[global] Instance zipperCall_eq_dec : EqDecision zipperCall.
Proof. solve_decision. Defined.

(** The counters of [Metrics]. *)
Record counters := Counters {
  Requests : Z;
  RequestCacheHits : Z;
  FindRequests : Z;
  FindCacheHits : Z;
  RenderRequests : Z
}.

(** The process state a handler works on: the two caches, the counters, and
    the calls made to the zipper so far. *)
Record server (C : Type) := Server {
  queryCache : C;
  findCache : C;
  Metrics : counters;
  zipperLog : list zipperCall
}.
Arguments Server {C}.
Arguments queryCache {C}.
Arguments findCache {C}.
Arguments Metrics {C}.
Arguments zipperLog {C}.

(** What the handler reads from outside this file: the expression language
    of expr.go ([parseExpr], [metrics], [evalExpr], [truthyBool]), the date
    parser ([dateParamToEpoch]), the encoders, the protobuf codec of
    [GlobResponse], and the zipper. The zipper answers a call in view of the
    calls made before it; [None] is an error. [evalExpr] yields [None] when
    it panics. *)
Record collaborators := Collaborators {
  expr : Type;
  truthyBool : string → bool;
  dateParamToEpoch : string → Z → Z;
  parseExpr : string → expr * string * option string;
  metrics : expr → list metricRequest;
  evalExpr : expr → Z → Z → gmap metricRequest (list metricData) → option (list metricData);
  marshalJSON : list metricData → string;
  marshalProtobuf : list metricData → string;
  marshalRaw : list metricData → string;
  marshalCSV : list metricData → string;
  marshalPickle : list metricData → string;
  marshalPNG : UrlValues → list metricData → string;
  globMarshal : GlobResponse → option string;
  globUnmarshal : string → option GlobResponse;
  zipperFind : list zipperCall → string → option GlobResponse;
  zipperRender : list zipperCall → string → Z → Z → option metricData
}.

(** An HTTP response: the status, the [Content-Type] header when one was
    set, and the body. *)
Record response := Response {
  status : Z;
  contentType : option string;
  body : string
}.

Definition StatusOK : Z := 200.
Definition StatusBadRequest : Z := 400.

(** [http.Error(w, msg, code)]. *)
Definition httpError (msg : string) (code : Z) : response :=
  Response code (Some "text/plain; charset=utf-8") (msg +:+ newline).

Definition contentTypeJSON : string := "application/json".
Definition contentTypeProtobuf : string := "application/x-protobuf".
Definition contentTypeJavaScript : string := "text/javascript".
Definition contentTypeRaw : string := "text/plain".
Definition contentTypePickle : string := "application/pickle".
Definition contentTypePNG : string := "image/png".
Definition contentTypeCSV : string := "text/csv".

(** [writeResponse]: a format outside the switch writes nothing. *)
Definition writeResponse (b format jsonp : string) : response :=
  if decide (format = "json") then
    if decide (jsonp ≠ "")
    then Response StatusOK (Some contentTypeJavaScript) (jsonp +:+ "(" +:+ b +:+ ")")
    else Response StatusOK (Some contentTypeJSON) b
  else if decide (format = "protobuf") then Response StatusOK (Some contentTypeProtobuf) b
  else if decide (format = "raw") then Response StatusOK (Some contentTypeRaw) b
  else if decide (format = "pickle") then Response StatusOK (Some contentTypePickle) b
  else if decide (format = "csv") then Response StatusOK (Some contentTypeCSV) b
  else if decide (format = "png") then Response StatusOK (Some contentTypePNG) b
  else Response StatusOK None "".

(** [buildParseErrorString]; [e] is the part of [target] left unparsed. *)
Definition buildParseErrorString (target e : string) (err : option string) : string :=
  let msg := "Bad Request" +:+ newline +:+ newline
             +:+ padRight 20 "Target" +:+ ": " +:+ target +:+ newline in
  let msg := match err with
             | Some text => msg +:+ padRight 20 "Error" +:+ ": " +:+ text +:+ newline
             | None => msg
             end in
  if decide (e ≠ "") then
    msg +:+ padRight 20 "Parsed so far" +:+ ": "
        +:+ sliceToStr (String.length target - String.length e) target +:+ newline
        +:+ padRight 20 "Could not parse" +:+ ": " +:+ e +:+ newline
  else msg.

(** The cache key of a render request: the form without [noCache], [jsonp]
    and the cache busters, encoded. *)
Definition stripCacheBusters (form : UrlValues) : UrlValues :=
  Del "_t" (Del "_ts" (Del "_salt" (Del "jsonp" (Del "noCache" form)))).

Definition cacheKey (form : UrlValues) : string := Encode (stripCacheBusters form).

(** [cacheTimeout]: 60, or [int32(t)] when the first value of the parameter
    is not empty and [strconv.Atoi] accepts it. *)
Definition cacheTimeoutOf (form : UrlValues) : Z :=
  let tstr := Get form "cacheTimeout" in
  if decide (tstr ≠ "") then
    match Atoi tstr with
    | Some t => wrap32 t
    | None => 60
    end
  else 60.

Definition maxDataPointsOf (form : UrlValues) : Z :=
  let mstr := Get form "maxDataPoints" in
  if decide (mstr ≠ "") then
    match Atoi mstr with
    | Some m => wrap32 m
    | None => 0
    end
  else 0.

(** The parameters that [renderHandler] deletes before it encodes the key. *)
Definition cacheBusters : list string := ["noCache"; "jsonp"; "_salt"; "_ts"; "_t"].

(** Two parameter lists that differ only in the order of the parameters
    and in the cache busters. *)
Definition sameUpToOrderAndBusters (ps1 ps2 : list (string * string)) : Prop :=
  filter (λ kv, kv.1 ∉ cacheBusters) ps1 ≡ₚ filter (λ kv, kv.1 ∉ cacheBusters) ps2.

Definition isFind (c : zipperCall) : bool :=
  match c with CallFind _ => true | CallRender _ _ _ => false end.


Section handlers.
Context {C : Type} `{!bytesCache C}.
Variable X : collaborators.

Abbreviation metricMapT := (gmap metricRequest (list metricData)).

(** The state of the fetch loop: [metricMap], the server, and
    [stats.zipperRequests]. *)
Record fetchState := FetchState {
  metricMap : metricMapT;
  srv : server C;
  zipperRequests : Z
}.

Definition addFindCacheHit (s : server C) : server C :=
  let m := Metrics s in
  Server (queryCache s) (findCache s)
    (Counters (Requests m) (RequestCacheHits m) (FindRequests m)
       (FindCacheHits m + 1) (RenderRequests m))
    (zipperLog s).

(** [Metrics.FindRequests.Add(1)] and the call [Zipper.Find(query)]. *)
Definition callFind (query : string) (s : server C) : option GlobResponse * server C :=
  let m := Metrics s in
  (zipperFind X (zipperLog s) query,
   Server (queryCache s) (findCache s)
     (Counters (Requests m) (RequestCacheHits m) (FindRequests m + 1)
        (FindCacheHits m) (RenderRequests m))
     (zipperLog s ++ [CallFind query])).

(** [Metrics.RenderRequests.Add(1)] and the call [Zipper.Render]. *)
Definition callRender (path : string) (from until : Z) (s : server C)
    : option metricData * server C :=
  let m := Metrics s in
  (zipperRender X (zipperLog s) path from until,
   Server (queryCache s) (findCache s)
     (Counters (Requests m) (RequestCacheHits m) (FindRequests m)
        (FindCacheHits m) (RenderRequests m + 1))
     (zipperLog s ++ [CallRender path from until])).

Definition setFindCache (k v : string) (expire : Z) (s : server C) : server C :=
  Server (queryCache s) (set (findCache s) k v expire) (Metrics s) (zipperLog s).

(** The loop over [glob.GetMatches()] that starts one [Zipper.Render] per
    leaf. The goroutines are taken in the order they are started, and their
    results are received from [rch] in that order. *)
Definition renderLeaf (from until : Z)
    (acc : fetchState * list (option metricData)) (m : GlobMatch)
    : fetchState * list (option metricData) :=
  if IsLeaf m then
    let '(r, s) := callRender (Path m) from until (srv acc.1) in
    (FetchState (metricMap acc.1) s (zipperRequests acc.1 + 1), acc.2 ++ [r])
  else acc.

(** The loop [for i := 0; i < leaves; i++] that receives the results:
    [metricMap[mfetch] = append(metricMap[mfetch], r)] for every [r != nil]. *)
Definition collect (mfetch : metricRequest) (mm : metricMapT)
    (r : option metricData) : metricMapT :=
  match r with
  | Some d => <[mfetch := default [] (mm !! mfetch) ++ [d]]> mm
  | None => mm
  end.

(** The find step: the glob from [findCache] when the cache is used and the
    entry decodes, else from [Zipper.Find], stored for 300 seconds when it
    encodes. [None] is the [continue] after a failed [Find]. *)
Definition findGlob (useCache : bool) (query : string) (fs : fetchState)
    : option GlobResponse * fetchState :=
  let cached :=
    match get (findCache (srv fs)) query with
    | Some response => if useCache then Some response else None
    | None => None
    end in
  let fs1 :=
    match cached with
    | Some _ => FetchState (metricMap fs) (addFindCacheHit (srv fs)) (zipperRequests fs)
    | None => fs
    end in
  match cached ≫= globUnmarshal X with
  | Some glob => (Some glob, fs1)
  | None =>
      let '(found, s) := callFind query (srv fs1) in
      let fs2 := FetchState (metricMap fs1) s (zipperRequests fs1 + 1) in
      match found with
      | None => (None, fs2)
      | Some glob =>
          match globMarshal X glob with
          | Some b =>
              (Some glob,
               FetchState (metricMap fs2) (setFindCache query b (5 * 60) (srv fs2))
                 (zipperRequests fs2))
          | None => (Some glob, fs2)
          end
      end
  end.

(** The body of [for _, m := range exp.metrics()]. *)
Definition fetchMetric (useCache : bool) (from32 until32 : Z)
    (fs : fetchState) (m : metricRequest) : fetchState :=
  let mfetch := MetricRequest (metric m) (wrap32 (from m + from32))
                  (wrap32 (until m + until32)) in
  match metricMap fs !! mfetch with
  | Some _ => fs
  | None =>
      match findGlob useCache (metric m) fs with
      | (None, fs1) => fs1
      | (Some glob, fs1) =>
          let '(fs2, rs) :=
            foldl (renderLeaf (from mfetch) (until mfetch)) (fs1, []) (Matches glob) in
          FetchState (foldl (collect mfetch) (metricMap fs2) rs) (srv fs2)
            (zipperRequests fs2)
      end
  end.

(** The loop [for _, target := range targets]. The result is the message of
    the 400 response when a target does not parse, the series evaluated so
    far, and the state. *)
Fixpoint targetsLoop (useCache : bool) (maxDataPoints from32 until32 : Z)
    (targets : list string) (results : list metricData) (fs : fetchState)
    : option string * list metricData * fetchState :=
  match targets with
  | [] => (None, results, fs)
  | target :: rest =>
      let target :=
        if decide (0 < maxDataPoints)
        then "maxDataPoints(" +:+ target +:+ ", " +:+ pretty maxDataPoints +:+ ")"
        else target in
      let '(exp, e, err) := parseExpr X target in
      if decide (err ≠ None ∨ e ≠ "") then
        (Some (buildParseErrorString target e err), results, fs)
      else
        let fs' := foldl (fetchMetric useCache from32 until32) fs (metrics X exp) in
        let results' :=
          match evalExpr X exp from32 until32 (metricMap fs') with
          | Some exprs => results ++ exprs
          | None => results
          end in
        targetsLoop useCache maxDataPoints from32 until32 rest results' fs'
  end.

(** The encoder chosen by [format]; [body] stays [nil] otherwise. *)
Definition marshal (format : string) (form : UrlValues) (results : list metricData) : string :=
  if decide (format = "json") then marshalJSON X results
  else if decide (format = "protobuf") then marshalProtobuf X results
  else if decide (format = "raw") then marshalRaw X results
  else if decide (format = "csv") then marshalCSV X results
  else if decide (format = "pickle") then marshalPickle X results
  else if decide (format = "png") then marshalPNG X form results
  else "".

Definition formatOf (form : UrlValues) : string :=
  let format := Get form "format" in
  let format :=
    if bool_decide (format = "")
       && (truthyBool X (Get form "rawData") || truthyBool X (Get form "rawdata"))
    then "raw" else format in
  if decide (format = "") then "png" else format.

Definition jsonpOf (form : UrlValues) : string :=
  if decide (Get form "format" = "json") then Get form "jsonp" else "".

Definition addRequest (s : server C) : server C :=
  let m := Metrics s in
  Server (queryCache s) (findCache s)
    (Counters (Requests m + 1) (RequestCacheHits m) (FindRequests m)
       (FindCacheHits m) (RenderRequests m))
    (zipperLog s).

Definition addRequestCacheHit (s : server C) : server C :=
  let m := Metrics s in
  Server (queryCache s) (findCache s)
    (Counters (Requests m) (RequestCacheHits m + 1) (FindRequests m)
       (FindCacheHits m) (RenderRequests m))
    (zipperLog s).

Definition setQueryCache (k v : string) (expire : Z) (s : server C) : server C :=
  Server (set (queryCache s) k v expire) (findCache s) (Metrics s) (zipperLog s).

(** What [renderHandler] leaves behind: the response, the server, the
    value of [stats.zipperRequests], and the final [metricMap]. *)
Record rendered := Rendered {
  resp : response;
  after : server C;
  statsZipperRequests : Z;
  finalMetricMap : metricMapT
}.

(** [renderHandler] on a request whose form parsed: [ps] are the decoded
    parameters in the order of the query string, [nowFrom] and [nowUntil]
    the two readings of [timeNow().Unix()]. The query cache is asked before
    [useCache] is tested, as in
    [if response, ok := queryCache.get(cacheKey); useCache && ok]. *)
Definition renderHandler (ps : list (string * string)) (nowFrom nowUntil : Z)
    (s : server C) : rendered :=
  let s := addRequest s in
  let form := parseParams ps in
  let targets := default [] (form !! "target") in
  let from := Get form "from" in
  let until := Get form "until" in
  let useCache := negb (truthyBool X (Get form "noCache")) in
  let jsonp := jsonpOf form in
  let format := formatOf form in
  let cacheTimeout := cacheTimeoutOf form in
  let maxDataPoints := maxDataPointsOf form in
  let cacheKey := cacheKey form in
  let form := stripCacheBusters form in
  match (match get (queryCache s) cacheKey with
         | Some response => if useCache then Some response else None
         | None => None
         end) with
  | Some response =>
      Rendered (writeResponse response format jsonp) (addRequestCacheHit s) 0 ∅
  | None =>
      let from32 := dateParamToEpoch X from (nowFrom - 24 * 3600) in
      let until32 := dateParamToEpoch X until nowUntil in
      if decide (from32 = until32) then
        Rendered (httpError "Invalid empty time range" StatusBadRequest) s 0 ∅
      else
        let '(failure, results, fs) :=
          targetsLoop useCache maxDataPoints from32 until32 targets []
            (FetchState ∅ s 0) in
        match failure with
        | Some msg =>
            Rendered (httpError msg StatusBadRequest) (srv fs) (zipperRequests fs)
              (metricMap fs)
        | None =>
            let body := marshal format form results in
            Rendered (writeResponse body format jsonp)
              (if decide (length results ≠ 0%nat)
               then setQueryCache cacheKey body cacheTimeout (srv fs)
               else srv fs)
              (zipperRequests fs) (metricMap fs)
        end
  end.

(** [type completer struct] and [findCompleter]. [jsonString] is the
    encoding of a Go string by [encoding/json]. *)
Record completer := Completer { cPath : string; cName : string; cIsLeaf : string }.

Definition completerOf (g : GlobMatch) : completer :=
  let path := Path g in
  let isLeaf := if IsLeaf g then "1" else "0" in
  match LastIndexByte "." path with
  | Some i => Completer path (sliceFromStr (i + 1) path) isLeaf
  | None => Completer path "" isLeaf
  end.

Definition completeLoop (matches : list GlobMatch) : list completer :=
  foldl (λ complete g, complete ++ [completerOf g]) [] matches.

Variable jsonString : string → string.

Definition jsonField (name value : string) : string :=
  dquote +:+ name +:+ dquote +:+ ":" +:+ value.

Definition encodeCompleter (c : completer) : string :=
  "{" +:+ jsonField "path" (jsonString (cPath c))
  +:+ "," +:+ jsonField "name" (jsonString (cName c))
  +:+ "," +:+ jsonField "is_leaf" (jsonString (cIsLeaf c)) +:+ "}".

(** [json.NewEncoder(&b).Encode(struct{ Metrics []completer }{complete})]:
    the encoder ends the value with a newline and cannot fail on strings. *)
Definition encodeMetrics (complete : list completer) : string :=
  "{" +:+ jsonField "metrics" ("[" +:+ Join (map encodeCompleter complete) "," +:+ "]")
  +:+ "}" +:+ newline.

Definition findCompleter (globs : GlobResponse) : string * option string :=
  (encodeMetrics (completeLoop (Matches globs)), None).

End handlers.

End Main.

(** ** Stand-ins for the collaborators

    A small instance of what main.go reads from expr.go and from the
    zipper: a target is a metric name, it is its own expression, and it
    needs its series over the window of the request and over the window one
    hour earlier (as [diffSeries(x, timeShift(x, "1h"))] does). The zipper
    knows the single leaf [a.b], which every query matches, and a date is
    an epoch in decimal digits. *)

Module Demo.
Import GoNum GoStr Cache Cairo Main.

Definition series (path : string) (from until : Z) : metricData :=
  MetricData path from until 60 [1%float] [false] 0 0%float None.

Definition names (rs : list metricData) : string := Join (Name <$> rs) ",".

Definition demo : collaborators := {|
  expr := string;
  truthyBool := λ s, bool_decide (s = "1");
  dateParamToEpoch := λ s d, wrap32 (default d (Atoi s));
  parseExpr := λ target, (target, "", None);
  metrics := λ e, [MetricRequest e 0 0; MetricRequest e (-3600) (-3600)];
  evalExpr := λ e from until mm,
    Some (default [] (mm !! MetricRequest e from until));
  marshalJSON := names;
  marshalProtobuf := names;
  marshalRaw := names;
  marshalCSV := names;
  marshalPickle := names;
  marshalPNG := λ _, names;
  globMarshal := λ _, None;
  globUnmarshal := λ _, None;
  zipperFind := λ _ query, Some (MkGlobResponse query [MkGlobMatch "a.b" true]);
  zipperRender := λ _ path from until, Some (series path from until)
|}.

Definition noCounters : counters := Counters 0 0 0 0 0.

Definition nullServer : server nullCache :=
  Server NullCache NullCache noCounters [].

Definition memServer : server expireCache :=
  Server (ExpireCache ∅) (ExpireCache ∅) noCounters [].

End Demo.


(** ** main.go: the find handler *)

Module Find.
Import GoNum GoStr Cache Cairo Main.

(** [type treejson struct]; the [context] field is the empty map
    [treejsonContext], which nothing writes. *)
Record treejson := Treejson {
  AllowChildren : Z;
  Expandable : Z;
  Leaf : Z;
  ID : string;
  Text : string
}.

(** [name[i+1:]] after the last ['.'], or the whole name. *)
Definition lastComponent (name : string) : string :=
  match LastIndexByte "." name with
  | Some i => sliceFromStr (i + 1) name
  | None => name
  end.

(** [basepath[:i+1]] up to and with the last ['.'], or the whole name. *)
Definition basepathOf (name : string) : string :=
  match LastIndexByte "." name with
  | Some i => sliceToStr (i + 1) name
  | None => name
  end.

Definition treeEntry (basepath : string) (g : GlobMatch) : treejson :=
  let name := lastComponent (Path g) in
  if IsLeaf g then Treejson 0 0 1 (basepath +:+ name) name
  else Treejson 1 1 0 (basepath +:+ name) name.

(** The body of the loop of [findTreejson] on the set [seen] and the slice
    [tree]. *)
Definition treeStep (basepath : string) (acc : gset string * list treejson)
    (g : GlobMatch) : gset string * list treejson :=
  let name := lastComponent (Path g) in
  if decide (name ∈ acc.1) then acc
  else ({[name]} ∪ acc.1, acc.2 ++ [treeEntry basepath g]).

Definition treeLoop (globs : GlobResponse) : list treejson :=
  (foldl (treeStep (basepathOf (GlobName globs))) (∅, []) (Matches globs)).2.

Section encoders.
Variable jsonString : string → string.

Definition encodeTreejson (t : treejson) : string :=
  "{" +:+ jsonField "allowChildren" (pretty (AllowChildren t))
  +:+ "," +:+ jsonField "expandable" (pretty (Expandable t))
  +:+ "," +:+ jsonField "leaf" (pretty (Leaf t))
  +:+ "," +:+ jsonField "id" (jsonString (ID t))
  +:+ "," +:+ jsonField "text" (jsonString (Text t))
  +:+ "," +:+ jsonField "context" "{}" +:+ "}".

(** [func findTreejson(globs pb.GlobResponse) ([]byte, error)]. *)
Definition findTreejson (globs : GlobResponse) : string * option string :=
  ("[" +:+ Join (map encodeTreejson (treeLoop globs)) "," +:+ "]" +:+ newline, None).

Definition StatusInternalServerError : Z := 500.

(** [findHandler] on the form of the request: the response and the log of
    zipper calls after it. *)
Definition findHandler (X : collaborators) (form : UrlValues)
    (log : list zipperCall) : response * list zipperCall :=
  let format := Get form "format" in
  let jsonp := Get form "jsonp" in
  let query := Get form "query" in
  if decide (query = "") then
    (httpError "missing parameter `query`" StatusBadRequest, log)
  else
    let format := if decide (format = "") then "treejson" else format in
    match zipperFind X log query with
    | None =>
        (httpError "Internal Server Error" StatusInternalServerError,
         log ++ [CallFind query])
    | Some globs =>
        let '(b, err) :=
          if decide (format = "treejson" ∨ format = "json") then findTreejson globs
          else if decide (format = "completer") then findCompleter jsonString globs
          else ("", None) in
        match err with
        | Some _ =>
            (httpError "Internal Server Error" StatusInternalServerError,
             log ++ [CallFind query])
        | None => (writeResponse b "json" jsonp, log ++ [CallFind query])
        end
    end.

End encoders.

End Find.

(** ** cairo.go: colours and axes *)

Module Axes.
Import GoNum GoStr Cairo.

(** [color.RGBA]. *)
Record RGBA := MkRGBA { cR : Z; cG : Z; cB : Z; cA : Z }.

Definition uint8 (x : Z) : Z := x `mod` 256.

(** The value of a digit of [strconv.ParseUint] in base 16. *)
Definition hexVal (a : Ascii.ascii) : option Z :=
  let n := byteOf a in
  if decide (48 ≤ n ≤ 57) then Some (n - 48)
  else if decide (97 ≤ n ≤ 102) then Some (n - 87)
  else if decide (65 ≤ n ≤ 70) then Some (n - 55)
  else None.

Fixpoint parseHex (acc : Z) (s : string) : option Z :=
  match s with
  | EmptyString => Some acc
  | String a s' => d ← hexVal a; parseHex (acc * 16 + d) s'
  end.

(** [strconv.ParseUint(s, 16, 32)]: no sign, no prefix, at least one
    digit, and a value below [2^32]. *)
Definition ParseUint16 (s : string) : option Z :=
  if decide (s = "") then None
  else n ← parseHex 0 s; if decide (n < 2 ^ 32) then Some n else None.

(** [func hexToRGBA(h string) color.RGBA]. *)
Definition hexToRGBA (h : string) : RGBA :=
  let h := match h with
           | String c rest => if Ascii.eqb c "#" then rest else h
           | EmptyString => h
           end in
  let h := if decide (String.length h = 3%nat)
           then sliceToStr 1 h +:+ sliceToStr 1 h
                +:+ sliceToStr 1 (sliceFromStr 1 h) +:+ sliceToStr 1 (sliceFromStr 1 h)
                +:+ sliceFromStr 2 h +:+ sliceFromStr 2 h
           else h in
  let c := MkRGBA 0 0 0 255 in
  let c := if decide (String.length h = 6%nat) then
             match ParseUint16 h with
             | Some rgb => MkRGBA (uint8 (rgb ≫ 16)) (uint8 (rgb ≫ 8)) (uint8 rgb) (cA c)
             | None => c
             end
           else c in
  if decide (String.length h = 8%nat) then
    match ParseUint16 h with
    | Some rgb => MkRGBA (uint8 (rgb ≫ 24)) (uint8 (rgb ≫ 16)) (uint8 (rgb ≫ 8)) (uint8 rgb)
    | None => c
    end
  else c.

(** [func closest(number float64, neighbours []float64) float64]. *)
Definition closestStep (number : float) (acc : float * float) (n : float) : float * float :=
  let d := PrimFloat.abs (n - number)%float in
  if (d <? acc.1)%float then (d, n) else acc.

Definition closest (number : float) (neighbours : list float) : float :=
  (foldl (closestStep number) (infinity, 0%float) neighbours).2.

(** [func frange(start, end, step float64) []float64]. The loop need not
    end (a negative step never passes [end]); [fuel] bounds its rounds and
    [None] is the loop still running. *)
Fixpoint frangeLoop (fuel : nat) (start end_ step f : float) (vals : list float)
    : option (list float) :=
  if (f <=? end_)%float then
    match fuel with
    | O => None
    | S fuel' =>
        let vals := vals ++ [f] in
        let f := (f + step)%float in
        if (f =? start)%float then Some (vals ++ [end_])
        else frangeLoop fuel' start end_ step f vals
    end
  else Some vals.

Definition frange (fuel : nat) (start end_ step : float) : option (list float) :=
  frangeLoop fuel start end_ step start [].

(** [int64(x)] by wrap-around. *)
Definition wrap64 (x : Z) : Z := (x + 2 ^ 63) `mod` 2 ^ 64 - 2 ^ 63.

Definition Nanosecond : Z := 1.
Definition SecondNs : Z := 1000000000.

(** The seconds from the zero time of Go's [time.Time] (year 1) to the
    Unix epoch. *)
Definition unixToInternal : Z := 62135596800.

(** [t.Truncate(d)] on a time given in nanoseconds since the Unix epoch:
    the time rounded down to a multiple of [d] since the zero time, and
    [t] itself when [d <= 0]. *)
Definition Truncate (t d : Z) : Z :=
  if decide (d ≤ 0) then t else t - (t + unixToInternal * SecondNs) `mod` d.

(** The loop [for t.Unix() < int64(start) { t = t.Add(d) }]. *)
Fixpoint advance (fuel : nat) (start t d : Z) : option Z :=
  if decide (t `div` SecondNs < start) then
    match fuel with
    | O => None
    | S fuel' => advance fuel' start (t + d) d
    end
  else Some t.

(** [func findXTimes(start int32, unit TimeUnit, step float64) (int32, int32)]:
    [None] is the panic on a unit other than second, minute, hour or day,
    or the loop still running when [fuel] is used up. *)
Definition findXTimes (fuel : nat) (start unit : Z) (step : float) : option (Z * Z) :=
  d ← (if decide (unit = 1) then Some SecondNs
       else if decide (unit = 60) then Some (60 * SecondNs)
       else if decide (unit = 3600) then Some (3600 * SecondNs)
       else if decide (unit = 86400) then Some (24 * (3600 * SecondNs))
       else None);
  let d := wrap64 (d * int_of_float64 step) in
  let t := Truncate (start * SecondNs) d in
  t ← advance fuel start t d;
  Some (wrap32 (t `div` SecondNs), wrap32 (Z.quot d SecondNs)).

End Axes.

(** ** A stand-in with a codec

    The stand-ins of [Demo] with a codec for [GlobResponse] that round-trips
    on the responses of its zipper: a response is encoded as the name of
    its glob. *)

Module DemoCodec.
Import GoNum GoStr Cache Cairo Main Demo.

Definition demoCodec : collaborators := {|
  expr := string;
  truthyBool := truthyBool demo;
  dateParamToEpoch := dateParamToEpoch demo;
  parseExpr := parseExpr demo;
  metrics := metrics demo;
  evalExpr := evalExpr demo;
  marshalJSON := names;
  marshalProtobuf := names;
  marshalRaw := names;
  marshalCSV := names;
  marshalPickle := names;
  marshalPNG := λ _, names;
  globMarshal := λ g, Some (GlobName g);
  globUnmarshal := λ b, Some (MkGlobResponse b [MkGlobMatch "a.b" true]);
  zipperFind := zipperFind demo;
  zipperRender := zipperRender demo
|}.

End DemoCodec.

(* ================================================================== *)
(** * Properties *)

(** ** The model at work *)

Section examples.
Import GoNum GoStr Cache Cairo Main Demo.

Example Floor_half : Floor 3.5%float = 3%float ∧ Floor (-3.5)%float = (-4)%float.
Proof. split; reflexivity. Qed.

Example Ceil_half : Ceil 3.5%float = 4%float ∧ Ceil 2%float = 2%float.
Proof. split; reflexivity. Qed.

Example int_of_float64_nan : int_of_float64 nan = minInt64 ∧ int_of_float64 2.75%float = 2.
Proof. split; reflexivity. Qed.

(** Five values by buckets of two: a full bucket, a bucket of two absent
    slots, and the trailing bucket of one. *)
Example computeAggregated_five :
  computeAggregated
    (MetricData "x" 0 300 60 [1; 2; 3; 4; 5]%float [false; false; true; true; false]
       2 0%float None)
  = Some [1.5; nan; 5]%float.
Proof. vm_compute. reflexivity. Qed.

Example consolidateSeries_narrow :
  valuesPerPoint <$>
    consolidateSeries (MkParams 0 4 1 240 0)
      (MetricData "x" 0 240 60 [1; 2; 3; 4]%float [false; false; false; false]
         0 0%float None)
  = Some 2.
Proof. vm_compute. reflexivity. Qed.

Example formatUnits_binary : formatUnits 2048%float 4096%float "binary" = (2%float, "Ki").
Proof. vm_compute. reflexivity. Qed.

Example formatUnits_small_step : formatUnits 2048%float 1%float "binary" = (2048%float, "").
Proof. vm_compute. reflexivity. Qed.

Example Atoi_signs :
  Atoi "-12" = Some (-12) ∧ Atoi "+7" = Some 7 ∧ Atoi "+" = None ∧ Atoi "1h" = None
  ∧ Atoi "9223372036854775808" = None.
Proof. repeat split; reflexivity. Qed.

Example hexString_bytes : hexString "az" = "617a".
Proof. reflexivity. Qed.

Example Encode_sorted :
  Encode (parseParams [("target", "a b"); ("from", "-1h"); ("target", "c&d")])
  = "from=-1h&target=a+b&target=c%26d".
Proof. vm_compute. reflexivity. Qed.

Example cacheKey_strips :
  cacheKey (parseParams [("target", "a"); ("noCache", "1"); ("_ts", "9"); ("from", "-1h")])
  = "from=-1h&target=a".
Proof. vm_compute. reflexivity. Qed.

(** The completer entries of the matches [a.b] (leaf) and [a.c] (not a
    leaf). *)
Example completeLoop_two :
  completeLoop [MkGlobMatch "a.b" true; MkGlobMatch "a.c" false]
  = [Completer "a.b" "b" "1"; Completer "a.c" "c" "0"].
Proof. reflexivity. Qed.

(** The same target twice: the second one finds its two requests in
    [metricMap] and calls nothing. *)
Example renderHandler_same_target_twice :
  let ps := [("target", "a.b"); ("target", "a.b"); ("from", "1000");
             ("until", "2000"); ("format", "raw")] in
  let r := renderHandler demo ps 0 0 nullServer in
  zipperLog (after r) =
    [CallFind "a.b"; CallRender "a.b" 1000 2000;
     CallFind "a.b"; CallRender "a.b" (-2600) (-1600)]
  ∧ resp r = Response StatusOK (Some contentTypeRaw) "a.b,a.b"
  ∧ statsZipperRequests r = 4.
Proof. vm_compute. repeat split; reflexivity. Qed.

End examples.

Section cairo_lemmas.
Import GoNum Cairo.

Lemma presentValues_snoc vs absent x a :
  length vs = length absent →
  presentValues (vs ++ [x]) (absent ++ [a]) =
  presentValues vs absent ++ (if negb (PrimFloat.is_nan x) && negb a then [x] else []).
Proof.
  revert absent. induction vs as [|y vs IH]; intros [|b absent] Hlen;
    simplify_eq/=; [by destruct (_ && _)|].
  rewrite IH by done. by destruct (negb (PrimFloat.is_nan y) && negb b).
Qed.

(** The inner loop over one window adds up the present values of the first
    [k] slots. *)
Lemma bucketStep_fold k v absent s n :
  (k ≤ length v)%nat → (k ≤ length absent)%nat →
  foldl (bucketStep v absent) (Some (s, n)) (seq 0 k) =
  Some (foldl PrimFloat.add s (presentValues (take k v) (take k absent)),
        n + Z.of_nat (length (presentValues (take k v) (take k absent)))).
Proof.
  induction k as [|k IH]; intros Hv Ha.
  - simpl. do 2 f_equal. lia.
  - rewrite seq_S, foldl_app, IH by lia. simpl.
    destruct (lookup_lt_is_Some_2 v k) as [x Hx]; [lia|].
    destruct (lookup_lt_is_Some_2 absent k) as [a Hxa]; [lia|].
    rewrite (take_S_r v k x), (take_S_r absent k a) by done.
    rewrite presentValues_snoc by (rewrite !length_take; lia).
    rewrite Hx, Hxa. simpl. unfold accumulate.
    destruct (PrimFloat.is_nan x); simpl.
    + rewrite app_nil_r. done.
    + destruct a; simpl.
      * by rewrite app_nil_r.
      * rewrite foldl_app, length_app. simpl. do 2 f_equal. lia.
Qed.

Lemma bucket_S {A} vpp j (l : list A) : bucket vpp (S j) l = bucket vpp j (drop vpp l).
Proof. unfold bucket. by rewrite drop_drop. Qed.

Lemma div_step n vpp : (1 ≤ vpp ≤ n)%nat → (n / vpp = S ((n - vpp) / vpp))%nat.
Proof.
  intros H. replace n with ((n - vpp) + 1 * vpp)%nat at 1 by lia.
  rewrite Nat.div_add by lia. lia.
Qed.

(** The loop over the full buckets yields the mean of every full bucket, in
    order, and leaves the slots after the last full bucket. *)
Lemma fullBuckets_spec fuel vpp v absent avg :
  (1 ≤ vpp)%nat → length v = length absent → (length v ≤ fuel)%nat →
  fullBuckets fuel vpp v absent avg =
  Some (avg ++ map (λ j, mean (presentValues (bucket vpp j v) (bucket vpp j absent)))
                 (seq 0 (length v / vpp)),
        drop (length v / vpp * vpp) v, drop (length v / vpp * vpp) absent).
Proof.
  intros Hvpp. revert v absent avg.
  induction fuel as [|fuel IH]; intros v absent avg Hlen Hfuel; simpl.
  - destruct v; [|simpl in *; lia]. destruct absent; [|done].
    rewrite decide_False by (simpl; lia).
    rewrite Nat.div_small by (simpl; lia). simpl. by rewrite app_nil_r.
  - destruct (decide (vpp ≤ length v)%nat) as [Hle|Hgt].
    + rewrite bucketStep_fold by lia. simpl.
      unfold sliceFrom. rewrite decide_True by lia. simpl.
      rewrite IH by (rewrite ?length_drop; lia).
      rewrite length_drop, (div_step (length v) vpp) by lia.
      simpl. rewrite <- (fmap_S_seq 0), <- list_fmap_compose.
      rewrite <- app_assoc. simpl. rewrite !drop_drop.
      do 5 f_equal.
      apply list_fmap_ext. intros _ j _. simpl. by rewrite !bucket_S.
    + rewrite Nat.div_small by lia. simpl. by rewrite app_nil_r.
Qed.

Lemma tailBucket_spec v absent s n :
  length v = length absent →
  tailBucket v absent (s, n) =
  Some (foldl PrimFloat.add s (presentValues v absent),
        n + Z.of_nat (length (presentValues v absent))).
Proof.
  revert absent s n. induction v as [|x v IH]; intros [|a absent] s n Hlen;
    simplify_eq/=.
  - do 2 f_equal. lia.
  - unfold accumulate. unfold sliceFrom. simpl. rewrite drop_0.
    destruct (PrimFloat.is_nan x); simpl; [by apply IH|].
    destruct a; simpl; rewrite IH by done; [done|].
    simpl. do 2 f_equal. lia.
Qed.

Lemma rawCopy_spec i vs absent :
  (i + length vs ≤ length absent)%nat →
  rawCopy i vs absent =
  Some (zip_with (λ x (a : bool), if a then nan else x) vs (drop i absent)).
Proof.
  revert i. induction vs as [|x vs IH]; intros i Hlen; simpl; [done|].
  simpl in Hlen.
  destruct (lookup_lt_is_Some_2 absent i) as [a Ha]; [lia|].
  rewrite Ha. simpl. rewrite IH by lia. simpl.
  by rewrite (drop_S absent a i Ha).
Qed.

Lemma ceil_div n v :
  0 ≤ n → 1 ≤ v →
  (n + v - 1) `div` v = n `div` v + (if decide (n `mod` v = 0) then 0 else 1).
Proof.
  intros Hn Hv.
  pose proof (Z.div_mod n v ltac:(lia)) as Hdm.
  pose proof (Z.mod_pos_bound n v ltac:(lia)) as Hb.
  destruct (decide (n `mod` v = 0)) as [H0|H0].
  - symmetry. apply (Z.div_unique _ _ _ (v - 1)); lia.
  - symmetry. apply (Z.div_unique _ _ _ (n `mod` v - 1)); lia.
Qed.

Lemma drop_full_length {A} (l : list A) k :
  (1 ≤ k)%nat → length (drop (length l / k * k) l) = (length l `mod` k)%nat.
Proof.
  intros Hk. rewrite length_drop, (Nat.Div0.mod_eq (length l) k). lia.
Qed.

Lemma bucket_last {A} (l : list A) k :
  (1 ≤ k)%nat → bucket k (length l / k) l = drop (length l / k * k) l.
Proof.
  intros Hk. unfold bucket. apply take_ge.
  rewrite drop_full_length by done.
  pose proof (Nat.mod_upper_bound (length l) k). lia.
Qed.

Lemma bucketCount_nat (r : metricData) :
  1 ≤ valuesPerPoint r →
  Z.to_nat (bucketCount r) =
  (length (Values r) / Z.to_nat (valuesPerPoint r)
   + (if decide (length (Values r) `mod` Z.to_nat (valuesPerPoint r) = 0) then 0 else 1))%nat.
Proof.
  intros Hvpp. unfold bucketCount.
  set (n := length (Values r)). set (k := Z.to_nat (valuesPerPoint r)).
  assert (Hk : valuesPerPoint r = Z.of_nat k) by (unfold k; lia).
  rewrite Hk, ceil_div by lia.
  rewrite <- Nat2Z.inj_div, <- Nat2Z.inj_mod.
  destruct (decide (Z.of_nat (n `mod` k) = 0)), (decide (n `mod` k = 0)%nat); lia.
Qed.

Lemma bucketCount_nonneg (r : metricData) : 1 ≤ valuesPerPoint r → 0 ≤ bucketCount r.
Proof. intros H. unfold bucketCount. apply Z.div_pos; lia. Qed.

(** With two or more values per point the computation yields the mean of
    every bucket, the trailing partial one included. *)
Lemma computeAggregated_buckets (r : metricData) :
  2 ≤ valuesPerPoint r →
  length (Values r) = length (IsAbsent r) →
  computeAggregated r = Some (map (bucketMean r) (seq 0 (Z.to_nat (bucketCount r)))).
Proof.
  intros Hvpp Hlen. unfold computeAggregated.
  rewrite decide_False by lia. rewrite decide_False by lia.
  rewrite fullBuckets_spec by lia. simpl.
  rewrite bucketCount_nat by lia.
  set (k := Z.to_nat (valuesPerPoint r)).
  assert (Hk : (1 ≤ k)%nat) by (unfold k; lia).
  rewrite drop_full_length by done.
  destruct (decide (0 < length (Values r) `mod` k)%nat) as [Hrem|Hrem].
  - rewrite decide_False by lia.
    rewrite tailBucket_spec by (rewrite !length_drop; lia). simpl.
    rewrite Nat.add_1_r, seq_S, map_app. simpl.
    do 3 f_equal. unfold bucketMean, mean, fsum. fold k.
    rewrite (bucket_last (Values r)) by done. rewrite Hlen.
    rewrite (bucket_last (IsAbsent r)) by done. by rewrite Z.add_0_l.
  - rewrite decide_True by lia. by rewrite Nat.add_0_r.
Qed.

(** With one value per point the computation copies the values and puts
    NaN in the absent slots. *)
Lemma computeAggregated_raw (r : metricData) :
  valuesPerPoint r = 1 ∨ valuesPerPoint r = 0 →
  length (Values r) = length (IsAbsent r) →
  computeAggregated r =
  Some (zip_with (λ x (a : bool), if a then nan else x) (Values r) (IsAbsent r)).
Proof.
  intros Hvpp Hlen. unfold computeAggregated. rewrite decide_True by done.
  rewrite rawCopy_spec by lia. by rewrite drop_0.
Qed.

Lemma AggregatedValues_memoValid (r : metricData) a :
  memoValid r → computeAggregated r = Some a →
  AggregatedValues r = Some (a, set_aggregatedValues (Some a) r).
Proof.
  intros Hmemo Ha. unfold AggregatedValues.
  destruct (aggregatedValues r) as [b|] eqn:Hb.
  - rewrite (Hmemo b Hb) in Ha. simplify_eq. destruct r; simpl in *. by subst.
  - by rewrite Ha.
Qed.

Lemma computeAggregated_fields (r1 r2 : metricData) :
  Values r1 = Values r2 → IsAbsent r1 = IsAbsent r2 →
  valuesPerPoint r1 = valuesPerPoint r2 →
  computeAggregated r1 = computeAggregated r2.
Proof. unfold computeAggregated. by intros -> -> ->. Qed.

Lemma presentValues_none vs absent :
  (∀ i x a, vs !! i = Some x → absent !! i = Some a →
            a = true ∨ PrimFloat.is_nan x = true) →
  presentValues vs absent = [].
Proof.
  revert absent. induction vs as [|x vs IH]; intros [|a absent] H; simpl; try done.
  destruct (H 0%nat x a eq_refl eq_refl) as [-> | ->]; simpl;
    rewrite ?andb_false_r; apply IH; intros i y b Hy Hb; apply (H (S i) y b Hy Hb).
Qed.

Lemma bucket_lookup {A} (l : list A) k j i x :
  bucket k j l !! i = Some x → l !! (j * k + i)%nat = Some x ∧ (i < k)%nat.
Proof.
  unfold bucket. intros H. apply lookup_take_Some in H as [H Hi].
  by rewrite lookup_drop in H.
Qed.

Lemma mean_nil : mean [] = nan.
Proof. reflexivity. Qed.

Lemma eqb_nan (x : float) : (x =? nan)%float = false.
Proof.
  rewrite FloatAxioms.eqb_spec. unfold SFeqb.
  replace (Prim2SF nan) with S754_nan by reflexivity.
  by destruct (Prim2SF x).
Qed.

Lemma leb_nan (x : float) : (x <=? nan)%float = false.
Proof.
  rewrite FloatAxioms.leb_spec. unfold SFleb.
  replace (Prim2SF nan) with S754_nan by reflexivity.
  by destruct (Prim2SF x).
Qed.

Lemma formatUnitsLoop_no_prefix condition v unitsystem :
  (∀ size, condition size = false) →
  formatUnitsLoop condition v unitsystem = (roundIfIntegral v v, "").
Proof.
  intros Hc. induction unitsystem as [|p rest IH]; simpl; [done|].
  by rewrite Hc.
Qed.

(** The operations on a series leave its values and absence flags alone. *)
Lemma consolidateSeries_fields params r r' :
  consolidateSeries params r = Some r' →
  Values r' = Values r ∧ IsAbsent r' = IsAbsent r ∧
  aggregatedValues r' = aggregatedValues r.
Proof.
  unfold consolidateSeries. intros H.
  destruct (div32 _ _); simplify_eq/=.
  by destruct (_ <? _)%float; simplify_eq/=.
Qed.

Lemma AggregatedValues_memo_set (r : metricData) a r' :
  AggregatedValues r = Some (a, r') →
  aggregatedValues r' = Some a ∧ Values r' = Values r ∧
  IsAbsent r' = IsAbsent r ∧ valuesPerPoint r' = valuesPerPoint r.
Proof.
  unfold AggregatedValues. intros H.
  destruct (aggregatedValues r) as [b|] eqn:Hb; simplify_eq/=; [done|].
  destruct (computeAggregated r); by simplify_eq/=.
Qed.

(** Once the memo is set, every later call returns it. *)
Lemma runOps_memo ops (r : metricData) a outs r' :
  aggregatedValues r = Some a →
  runOps ops r = Some (outs, r') →
  Forall (λ o, o.2 = a) outs ∧ aggregatedValues r' = Some a ∧
  Values r' = Values r ∧ IsAbsent r' = IsAbsent r.
Proof.
  revert r outs. induction ops as [|[params|] ops IH]; intros r outs Hmemo Hrun;
    simpl in Hrun.
  - by simplify_eq.
  - destruct (consolidateSeries params r) as [r1|] eqn:Hc; simplify_eq/=.
    destruct (consolidateSeries_fields _ _ _ Hc) as (Hv & Hi & Hm).
    destruct (IH r1 outs) as (? & ? & ? & ?); [congruence|done|].
    repeat split; congruence.
  - unfold AggregatedValues in Hrun. rewrite Hmemo in Hrun. simpl in Hrun.
    destruct (runOps ops r) as [[outs1 r1]|] eqn:Hr; simplify_eq/=.
    destruct (IH r outs1 Hmemo Hr) as (? & ? & ? & ?).
    repeat split; try done. by constructor.
Qed.

End cairo_lemmas.

(* ------------------------------------------------------------------ *)
(** ** cairo.go: consolidation and unit formatting *)

Section cairo_claims.
Import GoNum Cairo.

(** C3, amended. For a series with [valuesPerPoint >= 1], as many absence
    flags as values and a memo that is unset or up to date, [AggregatedValues]
    returns [ceil(len(Values) / valuesPerPoint)] entries, which is
    [len(Values)] when [valuesPerPoint <= 1]; there is one more entry than
    full buckets when [valuesPerPoint] does not divide [len(Values)]. With
    two or more values per point, entry [j] is the mean of the values of
    bucket [j] that are neither absent nor NaN, the trailing partial bucket
    included; with one value per point, entry [j] is the value of slot [j],
    or NaN when the slot is absent. *)
Theorem AggregatedValues_buckets (r : metricData) :
  1 ≤ valuesPerPoint r →
  length (Values r) = length (IsAbsent r) →
  memoValid r →
  ∃ out r',
    AggregatedValues r = Some (out, r') ∧
    Z.of_nat (length out) = bucketCount r ∧
    (valuesPerPoint r ≤ 1 → length out = length (Values r)) ∧
    (Z.of_nat (length (Values r)) `mod` valuesPerPoint r ≠ 0 →
     length out = S (length (Values r) / Z.to_nat (valuesPerPoint r))) ∧
    (2 ≤ valuesPerPoint r →
     ∀ j, (j < length out)%nat → out !! j = Some (bucketMean r j)) ∧
    (valuesPerPoint r = 1 →
     ∀ j x (a : bool), Values r !! j = Some x → IsAbsent r !! j = Some a →
       out !! j = Some (if a then nan else x)).
Proof.
  intros Hvpp Hlen Hmemo.
  pose proof (bucketCount_nat r Hvpp) as Hcount.
  pose proof (bucketCount_nonneg r Hvpp) as Hnonneg.
  destruct (decide (valuesPerPoint r = 1)) as [H1|H1].
  - pose proof (computeAggregated_raw r (or_introl H1) Hlen) as Hc.
    eexists _, _. split; [by apply AggregatedValues_memoValid|].
    assert (Hl : length (zip_with (λ x (a : bool), if a then nan else x)
                           (Values r) (IsAbsent r)) = length (Values r)).
    { rewrite length_zip_with. lia. }
    rewrite Hl. unfold bucketCount. rewrite H1.
    split_and!.
    + rewrite Z.div_1_r. lia.
    + done.
    + by rewrite Z.mod_1_r.
    + lia.
    + intros _ j x a Hx Ha. rewrite lookup_zip_with, Hx. simpl. by rewrite Ha.
  - pose proof (computeAggregated_buckets r ltac:(lia) Hlen) as Hc.
    eexists _, _. split; [by apply AggregatedValues_memoValid|].
    rewrite length_map, length_seq.
    split_and!.
    + lia.
    + lia.
    + intros Hmod. rewrite Hcount.
      rewrite decide_False; [lia|].
      intros Hz. apply Hmod.
      replace (valuesPerPoint r) with (Z.of_nat (Z.to_nat (valuesPerPoint r))) by lia.
      rewrite <- Nat2Z.inj_mod. lia.
    + intros _ j Hj. rewrite list_lookup_fmap, lookup_seq_lt by done. done.
    + done.
Qed.

(** The amended C3 on five values by buckets of two. *)
Lemma AggregatedValues_buckets_witness :
  let r := MetricData "x" 0 300 60 [1; 2; 3; 4; 5]%float
             [false; false; true; true; false] 2 0%float None in
  1 ≤ valuesPerPoint r ∧ length (Values r) = length (IsAbsent r) ∧ memoValid r ∧
  ∃ out r', AggregatedValues r = Some (out, r') ∧ Z.of_nat (length out) = bucketCount r.
Proof.
  intros r.
  assert (H1 : 1 ≤ valuesPerPoint r) by (simpl; lia).
  assert (H2 : length (Values r) = length (IsAbsent r)) by reflexivity.
  assert (H3 : memoValid r) by (intros a Ha; discriminate Ha).
  repeat split; try assumption.
  destruct (AggregatedValues_buckets r H1 H2 H3) as (out & r' & Ha & Hl & _).
  exists out, r'. split; assumption.
Defined.

(** C3, as stated, fails. A series of four values is aggregated and then
    consolidated down to two values per point. It has [valuesPerPoint >= 1]
    and as many absence flags as values, and [AggregatedValues] returns the
    four raw values it kept from the first call: four entries, not
    [ceil(4 / 2) = 2]. *)
Lemma AggregatedValues_buckets_stale_memo :
  let r0 := MetricData "x" 0 240 60 [1; 2; 3; 4]%float
              [false; false; false; false] 0 0%float None in
  let r := MetricData "x" 0 240 60 [1; 2; 3; 4]%float
             [false; false; false; false] 2 1%float (Some [1; 2; 3; 4]%float) in
  runOps [OpAggregatedValues; OpConsolidate (MkParams 0 4 1 240 0)] r0
    = Some ([(0, [1; 2; 3; 4]%float)], r) ∧
  1 ≤ valuesPerPoint r ∧
  length (Values r) = length (IsAbsent r) ∧
  AggregatedValues r = Some ([1; 2; 3; 4]%float, r) ∧
  bucketCount r = 2 ∧
  ¬ (∃ out r', AggregatedValues r = Some (out, r') ∧
               Z.of_nat (length out) = bucketCount r).
Proof.
  intros r0 r.
  assert (Hagg : AggregatedValues r = Some ([1; 2; 3; 4]%float, r)) by reflexivity.
  split_and!; try (vm_compute; reflexivity); [simpl; lia|].
  intros (out & r' & Ha & Hl). rewrite Hagg in Ha.
  assert (Hout : length out = 4%nat) by (by injection Ha as <- _).
  rewrite Hout in Hl. vm_compute in Hl. discriminate Hl.
Qed.

(** C10, amended. For a series with [valuesPerPoint >= 2], as many absence
    flags as values and a memo that is unset or up to date, a bucket whose
    slots are all absent or NaN still has its entry in the result of
    [AggregatedValues], and the entry is NaN, the quotient of the zero sum
    by the zero count. The result has an entry for every bucket, and the
    absence flags of the series are what they were: nothing marks the
    bucket as absent. *)
Theorem AggregatedValues_empty_bucket (r : metricData) (j : nat) :
  2 ≤ valuesPerPoint r →
  length (Values r) = length (IsAbsent r) →
  memoValid r →
  Z.of_nat j < bucketCount r →
  (∀ i x (a : bool),
     (j * Z.to_nat (valuesPerPoint r) ≤ i < (j + 1) * Z.to_nat (valuesPerPoint r))%nat →
     Values r !! i = Some x → IsAbsent r !! i = Some a →
     a = true ∨ PrimFloat.is_nan x = true) →
  ∃ out r',
    AggregatedValues r = Some (out, r') ∧
    out !! j = Some nan ∧
    nan = (0 / float64_of_int 0)%float ∧
    Z.of_nat (length out) = bucketCount r ∧
    IsAbsent r' = IsAbsent r.
Proof.
  intros Hvpp Hlen Hmemo Hj Hslots.
  pose proof (computeAggregated_buckets r Hvpp Hlen) as Hc.
  pose proof (bucketCount_nonneg r ltac:(lia)) as Hnonneg.
  eexists _, _. split; [by apply AggregatedValues_memoValid|].
  rewrite length_map, length_seq. split_and!; [|done|lia|done].
  rewrite list_lookup_fmap, lookup_seq_lt by lia. simpl. f_equal.
  unfold bucketMean. rewrite presentValues_none; [apply mean_nil|].
  intros i x a Hx Ha.
  apply bucket_lookup in Hx as [Hx Hi]. apply bucket_lookup in Ha as [Ha _].
  apply (Hslots (j * Z.to_nat (valuesPerPoint r) + i)%nat x a); [lia|done..].
Qed.

(** The amended C10 on five values by buckets of two; the second bucket
    holds a NaN and an absent slot. *)
Lemma AggregatedValues_empty_bucket_witness :
  let r := MetricData "x" 0 300 60 [1; 2; nan; 4; 5]%float
             [false; false; false; true; false] 2 0%float None in
  ∃ out r', AggregatedValues r = Some (out, r') ∧ out !! 1%nat = Some nan.
Proof.
  intros r.
  assert (H1 : 2 ≤ valuesPerPoint r) by (simpl; lia).
  assert (H2 : length (Values r) = length (IsAbsent r)) by reflexivity.
  assert (H3 : memoValid r) by (intros a Ha; discriminate Ha).
  assert (H4 : Z.of_nat 1 < bucketCount r) by (vm_compute; reflexivity).
  assert (H5 : ∀ i x (a : bool),
             (1 * Z.to_nat (valuesPerPoint r) ≤ i
              < (1 + 1) * Z.to_nat (valuesPerPoint r))%nat →
             Values r !! i = Some x → IsAbsent r !! i = Some a →
             a = true ∨ PrimFloat.is_nan x = true).
  { intros i x a Hi Hx Ha. simpl in Hi.
    destruct i as [|[|[|[|i]]]]; try lia; simpl in Hx, Ha; simplify_eq.
    - right. reflexivity.
    - left. reflexivity. }
  destruct (AggregatedValues_empty_bucket r 1 H1 H2 H3 H4 H5)
    as (out & r' & Ha & Hn & _).
  exists out, r'. split; assumption.
Defined.

(** C10, as stated, fails, in two ways. A series of six values whose
    last three are NaN is aggregated and then consolidated down to three
    values per point: every slot of bucket 1 is NaN, and [AggregatedValues]
    returns the six raw values it kept from the first call, whose entry 1
    is the value 2 and not NaN. And a series of two NaN values without
    absence flags has [valuesPerPoint = 2] and one bucket of NaN only, and
    [AggregatedValues] panics on [absent[2:]] and emits nothing. *)
Lemma AggregatedValues_empty_bucket_stale_memo :
  let r0 := MetricData "x" 0 360 60 [1; 2; 3; nan; nan; nan]%float
              [false; false; false; false; false; false] 0 0%float None in
  let r := MetricData "x" 0 360 60 [1; 2; 3; nan; nan; nan]%float
             [false; false; false; false; false; false] 3 1%float
             (Some [1; 2; 3; nan; nan; nan]%float) in
  let r2 := MetricData "y" 0 120 60 [nan; nan]%float [] 2 0%float None in
  (runOps [OpAggregatedValues; OpConsolidate (MkParams 0 4 1 360 0)] r0
     = Some ([(0, [1; 2; 3; nan; nan; nan]%float)], r) ∧
   2 ≤ valuesPerPoint r ∧
   1 < bucketCount r ∧
   (∀ i x, (1 * 3 ≤ i < (1 + 1) * 3)%nat → Values r !! i = Some x →
           PrimFloat.is_nan x = true) ∧
   ¬ (∃ out r', AggregatedValues r = Some (out, r') ∧ out !! 1%nat = Some nan)) ∧
  (2 ≤ valuesPerPoint r2 ∧
   0 < bucketCount r2 ∧
   (∀ x, x ∈ Values r2 → PrimFloat.is_nan x = true) ∧
   AggregatedValues r2 = None).
Proof.
  intros r0 r r2. split.
  - split_and!; try (vm_compute; reflexivity).
    + simpl. lia.
    + intros [|[|[|[|[|[|i]]]]]] x Hi Hx; simpl in *; try lia; by simplify_eq.
    + intros (out & r' & Ha & Hnan).
      assert (Hagg : AggregatedValues r = Some ([1; 2; 3; nan; nan; nan]%float, r))
        by reflexivity.
      rewrite Hagg in Ha.
      pose proof (f_equal (λ o : option (list float * metricData),
                             match o with
                             | Some (l, _) => l !! 1%nat
                             | None => None
                             end) Ha) as Hentry.
      simpl in Hentry. rewrite Hnan in Hentry.
      pose proof (f_equal (λ o : option float,
                             match o with
                             | Some x => PrimFloat.is_nan x
                             | None => false
                             end) Hentry) as Hbad.
      vm_compute in Hbad. discriminate Hbad.
  - split_and!; try (vm_compute; reflexivity); [simpl; lia|].
    intros x Hx. repeat (apply elem_of_cons in Hx as [->|Hx]; [reflexivity|]).
    by apply elem_of_nil in Hx.
Qed.

(** C9. The guard [step == math.NaN()] of [formatUnits] is false for every
    [step], NaN included, so [formatUnits] always runs with the condition
    that asks for both [|v| >= size] and [step >= size]. With [step = NaN]
    no unit of any system passes it: the result is the value (rounded when
    integral) with the empty prefix. *)
Theorem formatUnits_nan_guard (v step : float) (system : string) :
  (step =? nan)%float = false ∧
  formatUnits v step system =
    formatUnitsLoop (conditionValueStep v step) v (default [] (unitSystems !! system)) ∧
  formatUnits v nan system = (roundIfIntegral v v, "").
Proof.
  split; [apply eqb_nan|]. split.
  - unfold formatUnits. by rewrite eqb_nan.
  - unfold formatUnits. rewrite eqb_nan.
    apply formatUnitsLoop_no_prefix. intros size.
    unfold conditionValueStep. by rewrite leb_nan, andb_false_r.
Qed.

(** C8, as stated, fails. A fresh series of four values is aggregated,
    then consolidated down to two values per point, then aggregated again:
    the second call returns the four raw values kept from the first call,
    not the two means, and the memo no longer corresponds to
    [valuesPerPoint]. *)
Lemma AggregatedValues_stale_after_consolidate :
  let r := MetricData "x" 0 240 60 [1; 2; 3; 4]%float
             [false; false; false; false] 0 0%float None in
  let ops := [OpAggregatedValues; OpConsolidate (MkParams 0 4 1 240 0);
              OpAggregatedValues] in
  ¬ (∀ outs r', runOps ops r = Some (outs, r') →
       memoValid r' ∧
       Forall (λ o, computeAggregated (set_consolidation o.1 (xStep r) r) = Some o.2) outs).
Proof.
  intros r ops H.
  destruct (H [(0, [1; 2; 3; 4]%float); (2, [1; 2; 3; 4]%float)]
              (MetricData "x" 0 240 60 [1; 2; 3; 4]%float
                 [false; false; false; false] 2 1%float
                 (Some [1; 2; 3; 4]%float))) as [Hmemo _].
  { vm_compute. reflexivity. }
  specialize (Hmemo _ eq_refl). vm_compute in Hmemo. discriminate Hmemo.
Qed.

(** C8, amended. The first call of [AggregatedValues] on a series whose
    memo is unset computes the consolidation with the [valuesPerPoint] in
    effect at that call and stores it. Whatever operations follow, every
    later call returns that same slice, and the memo keeps it: a change of
    [valuesPerPoint] by [consolidateDataPoints] after the first call is not
    seen. The memo therefore corresponds to the current [valuesPerPoint]
    whenever [valuesPerPoint] is what it was at the first call. *)
Theorem AggregatedValues_memo_first_call
    (r r1 r2 : metricData) (a : list float) (ops : list seriesOp)
    (outs : list (Z * list float)) :
  aggregatedValues r = None →
  AggregatedValues r = Some (a, r1) →
  runOps ops r1 = Some (outs, r2) →
  computeAggregated r = Some a ∧
  memoValid r1 ∧
  Forall (λ o, o.2 = a) outs ∧
  aggregatedValues r2 = Some a ∧
  (valuesPerPoint r2 = valuesPerPoint r → memoValid r2).
Proof.
  intros Hfresh Hfirst Hrun.
  assert (Hc : computeAggregated r = Some a).
  { unfold AggregatedValues in Hfirst. rewrite Hfresh in Hfirst.
    destruct (computeAggregated r); by simplify_eq/=. }
  destruct (AggregatedValues_memo_set _ _ _ Hfirst) as (Hm1 & Hv1 & Hi1 & Hp1).
  destruct (runOps_memo _ _ _ _ _ Hm1 Hrun) as (Hall & Hm2 & Hv2 & Hi2).
  split_and!; try done.
  - intros b Hb. rewrite Hm1 in Hb. simplify_eq.
    rewrite <- Hc. apply computeAggregated_fields; congruence.
  - intros Hp b Hb. rewrite Hm2 in Hb. simplify_eq.
    rewrite <- Hc. apply computeAggregated_fields; congruence.
Qed.

(** The amended C8 on four values: the call after the consolidation
    returns the four values of the first call. *)
Lemma AggregatedValues_memo_first_call_witness :
  let r := MetricData "x" 0 240 60 [1; 2; 3; 4]%float
             [false; false; false; false] 0 0%float None in
  let ops := [OpConsolidate (MkParams 0 4 1 240 0); OpAggregatedValues] in
  ∃ r1 r2 outs,
    AggregatedValues r = Some ([1; 2; 3; 4]%float, r1) ∧
    runOps ops r1 = Some (outs, r2) ∧
    Forall (λ o, o.2 = [1; 2; 3; 4]%float) outs.
Proof.
  intros r ops.
  exists (set_aggregatedValues (Some [1; 2; 3; 4]%float) r).
  exists (MetricData "x" 0 240 60 [1; 2; 3; 4]%float
            [false; false; false; false] 2 1%float (Some [1; 2; 3; 4]%float)).
  exists [(2, [1; 2; 3; 4]%float)].
  assert (H1 : aggregatedValues r = None) by reflexivity.
  assert (H2 : AggregatedValues r =
               Some ([1; 2; 3; 4]%float, set_aggregatedValues (Some [1; 2; 3; 4]%float) r))
    by (vm_compute; reflexivity).
  assert (H3 : runOps ops (set_aggregatedValues (Some [1; 2; 3; 4]%float) r) =
               Some ([(2, [1; 2; 3; 4]%float)],
                     MetricData "x" 0 240 60 [1; 2; 3; 4]%float
                       [false; false; false; false] 2 1%float
                       (Some [1; 2; 3; 4]%float)))
    by (vm_compute; reflexivity).
  split; [exact H2|]. split; [exact H3|].
  exact (proj1 (proj2 (proj2 (AggregatedValues_memo_first_call _ _ _ _ _ _ H1 H2 H3)))).
Defined.

End cairo_claims.

(* ------------------------------------------------------------------ *)
(** ** main.go: the handlers *)

Section url_lemmas.
Import GoNum GoStr Cache Cairo Main.

Lemma valuesOf_snoc key ps k v :
  valuesOf key (ps ++ [(k, v)]) = valuesOf key ps ++ (if decide (k = key) then [v] else []).
Proof.
  unfold valuesOf. rewrite filter_app, fmap_app. f_equal.
  rewrite filter_cons. simpl. by destruct (decide (k = key)).
Qed.

(** The form maps a key to the values the parameters give it, in their
    order; a key without parameter is not in the form. *)
Lemma parseParams_lookup ps key :
  parseParams ps !! key =
  if decide (valuesOf key ps = []) then None else Some (valuesOf key ps).
Proof.
  unfold parseParams. induction ps as [|[k v] ps IH] using rev_ind; [done|].
  rewrite foldl_app, valuesOf_snoc. simpl. unfold Add at 1.
  destruct (decide (k = key)) as [->|Hne].
  - rewrite lookup_insert_eq, IH.
    rewrite (decide_False (P := _ ++ [v] = [])) by (by destruct (valuesOf key ps)).
    by destruct (decide (valuesOf key ps = [])) as [->|].
  - by rewrite lookup_insert_ne, IH, app_nil_r.
Qed.

Lemma stripCacheBusters_lookup (form : UrlValues) key :
  stripCacheBusters form !! key =
  if decide (key ∈ cacheBusters) then None else form !! key.
Proof.
  unfold stripCacheBusters, Del, cacheBusters.
  destruct (decide (key ∈ _)) as [Hin|Hnin].
  - rewrite !lookup_delete.
    repeat (apply elem_of_cons in Hin as [->|Hin]; [by repeat case_decide|]).
    by apply elem_of_nil in Hin.
  - rewrite !lookup_delete.
    repeat (case_decide; [subst; exfalso; apply Hnin; set_solver|]). done.
Qed.

Lemma Get_valuesOf ps key :
  Get (parseParams ps) key = default "" (head (valuesOf key ps)).
Proof.
  unfold Get. rewrite parseParams_lookup.
  destruct (decide (valuesOf key ps = [])) as [->|]; [done|].
  by destruct (valuesOf key ps).
Qed.

End url_lemmas.

Section cache_key_claims.
Import GoNum GoStr Cache Cairo Main.

(** C2, as stated, fails: the two targets of a request in the other order
    give another cache key, although the parameters are the same up to
    their order. *)
Lemma cacheKey_depends_on_target_order :
  ¬ (∀ ps1 ps2, sameUpToOrderAndBusters ps1 ps2 →
       cacheKey (parseParams ps1) = cacheKey (parseParams ps2)).
Proof.
  intros H.
  specialize (H [("target", "a"); ("target", "b")] [("target", "b"); ("target", "a")]).
  assert (Hkeys : cacheKey (parseParams [("target", "a"); ("target", "b")]) = "target=a&target=b"
                  ∧ cacheKey (parseParams [("target", "b"); ("target", "a")]) = "target=b&target=a")
    by (split; vm_compute; reflexivity).
  destruct Hkeys as [H1 H2]. rewrite H1, H2 in H.
  assert (Hne : "target=a&target=b" ≠ "target=b&target=a") by discriminate.
  apply Hne, H. unfold sameUpToOrderAndBusters.
  assert (Hkeep : ∀ ps, ps = [("target", "a"); ("target", "b")]
                        ∨ ps = [("target", "b"); ("target", "a")] →
                        filter (λ kv : string * string, kv.1 ∉ cacheBusters) ps = ps)
    by (intros ps [-> | ->]; vm_compute; reflexivity).
  rewrite !Hkeep by auto. apply perm_swap.
Qed.

(** C2, amended. Two render requests get the same cache key when every
    parameter other than [noCache], [jsonp], [_salt], [_ts] and [_t] has
    the same values in the same order in both: the key does not depend on
    the order between parameters of different names, nor on the presence or
    the values of those five, but the values of one repeated name (such as
    [target]) keep their order in the key. *)
Theorem cacheKey_invariant (ps1 ps2 : list (string * string)) :
  (∀ key, key ∉ cacheBusters → valuesOf key ps1 = valuesOf key ps2) →
  cacheKey (parseParams ps1) = cacheKey (parseParams ps2).
Proof.
  intros Hsame. unfold cacheKey. f_equal. apply map_eq. intros key.
  rewrite !stripCacheBusters_lookup. case_decide; [done|].
  by rewrite !parseParams_lookup, Hsame.
Qed.

(** The amended C2 on two requests with the same targets in the same
    order. *)
Lemma cacheKey_invariant_witness :
  cacheKey (parseParams [("from", "-1h"); ("_salt", "17"); ("target", "a");
                         ("jsonp", "cb"); ("target", "b")]) =
  cacheKey (parseParams [("target", "a"); ("target", "b"); ("noCache", "1");
                         ("from", "-1h")]).
Proof.
  apply cacheKey_invariant. intros key Hkey.
  unfold valuesOf. rewrite !filter_cons, !filter_nil. simpl.
  repeat case_decide; subst; try done; exfalso; apply Hkey;
    unfold cacheBusters;
    repeat first [apply list_elem_of_here | apply list_elem_of_further].
Defined.

End cache_key_claims.

Section handler_lemmas.
Import GoNum GoStr Cache Cairo Main.
Context {C : Type} `{!bytesCache C}.
Variable X : collaborators.

(** [if response, ok := cache.get(k); useCache && ok]: the cache is asked
    first, and its answer is dropped when the cache is not in use. *)
Lemma cached_lookup {A} (useCache : bool) (o : option A) :
  match o with
  | Some response => if useCache then Some response else None
  | None => None
  end = if useCache then o else None.
Proof. by destruct o, useCache. Qed.










End handler_lemmas.

Section render_claims.
Import GoNum GoStr Cache Cairo Main.
Context {C : Type} `{!bytesCache C}.
Variable X : collaborators.


(** C4, amended. When the parsed [from] equals the parsed [until],
    [renderHandler] makes no call to the zipper. If the query cache is not
    used ([noCache] is truthy) or has no entry under the cache key, the
    response is the 400 "Invalid empty time range"; if the cache is used and
    has the entry, the cache is read first and the response is the cached
    body. *)
Theorem renderHandler_empty_range (ps : list (string * string))
    (nowFrom nowUntil : Z) (s : server C) :
  let form := parseParams ps in
  let r := renderHandler X ps nowFrom nowUntil s in
  dateParamToEpoch X (Get form "from") (nowFrom - 24 * 3600) =
    dateParamToEpoch X (Get form "until") nowUntil →
  zipperLog (after r) = zipperLog s ∧
  statsZipperRequests r = 0 ∧
  (truthyBool X (Get form "noCache") = true ∨
   get (queryCache s) (cacheKey form) = None →
   resp r = httpError "Invalid empty time range" StatusBadRequest) ∧
  (∀ response,
     truthyBool X (Get form "noCache") = false →
     get (queryCache s) (cacheKey form) = Some response →
     resp r = writeResponse response (formatOf X form) (jsonpOf form)).
Proof.
  intros form r Hempty. unfold r, renderHandler. fold form. simpl.
  rewrite cached_lookup.
  rewrite Hempty.
  destruct (truthyBool X (Get form "noCache")) eqn:Hno; simpl.
  - rewrite decide_True by done. simpl. split_and!; try done.
  - destruct (get (queryCache s) (cacheKey form)) as [response|] eqn:Hget; simpl.
    + split_and!; try done.
      * by intros [|].
      * by intros ? _ [= <-].
    + rewrite decide_True by done. simpl. split_and!; try done.
Qed.

(** What [renderHandler] stores. When it has evaluated all targets (the
    query cache did not answer, the time range is not empty, every target
    parsed), the response is the encoded body, and the body is stored in
    the query cache under the cache key exactly when the list of result
    series is not empty. The TTL is 60 unless the first value of
    [cacheTimeout] is accepted by [strconv.Atoi]; then it is [int32(t)] of
    that integer [t], which is [t] itself when [t] fits in 32 bits. *)
Theorem renderHandler_stores_result (ps : list (string * string))
    (nowFrom nowUntil : Z) (s : server C)
    (results : list metricData) (fs : fetchState (C := C)) :
  let form := parseParams ps in
  let useCache := negb (truthyBool X (Get form "noCache")) in
  let from32 := dateParamToEpoch X (Get form "from") (nowFrom - 24 * 3600) in
  let until32 := dateParamToEpoch X (Get form "until") nowUntil in
  let r := renderHandler X ps nowFrom nowUntil s in
  let body := marshal X (formatOf X form) (stripCacheBusters form) results in
  (useCache = false ∨ get (queryCache s) (cacheKey form) = None) →
  from32 ≠ until32 →
  targetsLoop X useCache (maxDataPointsOf form) from32 until32
    (default [] (form !! "target")) [] (FetchState ∅ (addRequest s) 0)
    = (None, results, fs) →
  resp r = writeResponse body (formatOf X form) (jsonpOf form) ∧
  after r = (if decide (length results ≠ 0%nat)
             then setQueryCache (cacheKey form) body (cacheTimeoutOf form) (srv fs)
             else srv fs) ∧
  cacheTimeoutOf form = match Atoi (Get form "cacheTimeout") with
                        | Some t => wrap32 t
                        | None => 60
                        end ∧
  (∀ t, Atoi (Get form "cacheTimeout") = Some t → - 2 ^ 31 ≤ t < 2 ^ 31 →
        cacheTimeoutOf form = t).
Proof.
  intros form useCache from32 until32 r body Hmiss Hrange Hloop.
  assert (Httl : cacheTimeoutOf form = match Atoi (Get form "cacheTimeout") with
                                       | Some t => wrap32 t
                                       | None => 60
                                       end).
  { unfold cacheTimeoutOf. case_decide as Hstr; [done|].
    by rewrite Hstr. }
  assert (Hlookup : (if useCache then get (queryCache s) (cacheKey form)
                     else None) = None).
  { destruct Hmiss as [-> | Hnone]; [done|]. rewrite Hnone. by destruct useCache. }
  split_and!; try done.
  - unfold r, renderHandler. fold form useCache from32 until32. simpl.
    rewrite cached_lookup, Hlookup. rewrite decide_False by done.
    fold from32 until32 in Hloop. by rewrite Hloop.
  - unfold r, renderHandler. fold form useCache from32 until32. simpl.
    rewrite cached_lookup, Hlookup. rewrite decide_False by done.
    fold from32 until32 in Hloop. by rewrite Hloop.
  - intros t Ht Hfit. rewrite Httl, Ht. unfold wrap32.
    rewrite Z.mod_small by lia. lia.
Qed.

End render_claims.

Section render_examples.
Import GoNum GoStr Cache Cairo Main Demo.


(** C4, as stated, fails. The request [target=a.b&from=100&format=raw] at
    time 90 has a non-empty range and its response is cached; the same
    request at time 100 has [from] equal to [until], and is answered from
    the cache with status 200. *)
Lemma renderHandler_empty_range_cache_hit :
  let ps := [("target", "a.b"); ("from", "100"); ("format", "raw")] in
  let first := renderHandler demo ps 90 90 memServer in
  let second := renderHandler demo ps 100 100 (after first) in
  dateParamToEpoch demo (Get (parseParams ps) "from") (100 - 24 * 3600) =
    dateParamToEpoch demo (Get (parseParams ps) "until") 100 ∧
  resp second = Response StatusOK (Some contentTypeRaw) "a.b" ∧
  resp second ≠ httpError "Invalid empty time range" StatusBadRequest.
Proof.
  intros ps first second.
  assert (Hresp : resp second = Response StatusOK (Some contentTypeRaw) "a.b")
    by (vm_compute; reflexivity).
  split; [vm_compute; reflexivity|]. split; [exact Hresp|].
  rewrite Hresp. discriminate.
Qed.

(** The amended C4 without cache: [from=100&until=100] is refused. *)
Lemma renderHandler_empty_range_witness :
  let ps := [("target", "a.b"); ("from", "100"); ("until", "100")] in
  let r := renderHandler demo ps 0 0 nullServer in
  dateParamToEpoch demo (Get (parseParams ps) "from") (0 - 24 * 3600) =
    dateParamToEpoch demo (Get (parseParams ps) "until") 0 ∧
  zipperLog (after r) = [] ∧
  resp r = httpError "Invalid empty time range" StatusBadRequest.
Proof.
  intros ps r.
  assert (H : dateParamToEpoch demo (Get (parseParams ps) "from") (0 - 24 * 3600) =
              dateParamToEpoch demo (Get (parseParams ps) "until") 0)
    by (vm_compute; reflexivity).
  destruct (renderHandler_empty_range demo ps 0 0 nullServer H)
    as (Hlog & _ & Hresp & _).
  split; [exact H|]. split; [exact Hlog|].
  apply Hresp. right. reflexivity.
Defined.

(** C5. The code departs from the claim on a [cacheTimeout] that parses
    but does not fit in 32 bits: [cacheTimeout=4294967297] is accepted by
    [strconv.Atoi], the conversion [int32(t)] is not checked, and the entry
    is stored with the TTL 1 instead of the value supplied. ([getInt] in
    cairo.go parses with [strconv.ParseInt(s, 10, 32)] and keeps the
    default on such a value.) *)
Lemma renderHandler_cacheTimeout_wraps :
  let ps := [("target", "a.b"); ("format", "raw");
             ("cacheTimeout", "4294967297"); ("from", "100")] in
  let r := renderHandler demo ps 90 90 memServer in
  Atoi (Get (parseParams ps) "cacheTimeout") = Some 4294967297 ∧
  ec (queryCache (after r)) !! cacheKey (parseParams ps) = Some ("a.b", 1) ∧
  ec (queryCache (after r)) !! cacheKey (parseParams ps) ≠ Some ("a.b", 4294967297).
Proof.
  intros ps r.
  assert (Hstored : ec (queryCache (after r)) !! cacheKey (parseParams ps)
                    = Some ("a.b", 1)) by (vm_compute; reflexivity).
  split; [vm_compute; reflexivity|]. split; [exact Hstored|].
  rewrite Hstored. discriminate.
Qed.

(** The store on a request with [cacheTimeout=30]. *)
Lemma renderHandler_stores_result_witness :
  let ps := [("target", "a.b"); ("format", "raw"); ("cacheTimeout", "30");
             ("from", "100")] in
  let form := parseParams ps in
  let r := renderHandler demo ps 90 90 memServer in
  ∃ results fs,
    targetsLoop demo (negb (truthyBool demo (Get form "noCache")))
      (maxDataPointsOf form)
      (dateParamToEpoch demo (Get form "from") (90 - 24 * 3600))
      (dateParamToEpoch demo (Get form "until") 90)
      (default [] (form !! "target")) [] (FetchState ∅ (addRequest memServer) 0)
      = (None, results, fs) ∧
    after r = (if decide (length results ≠ 0%nat)
               then setQueryCache (cacheKey form)
                      (marshal demo (formatOf demo form) (stripCacheBusters form) results)
                      (cacheTimeoutOf form) (srv fs)
               else srv fs) ∧
    cacheTimeoutOf form = 30.
Proof.
  intros ps form r.
  set (loop := targetsLoop demo (negb (truthyBool demo (Get form "noCache")))
      (maxDataPointsOf form)
      (dateParamToEpoch demo (Get form "from") (90 - 24 * 3600))
      (dateParamToEpoch demo (Get form "until") 90)
      (default [] (form !! "target")) [] (FetchState ∅ (addRequest memServer) 0)).
  assert (Hloop : loop = (None, loop.1.2, loop.2)) by (vm_compute; reflexivity).
  assert (Hmiss : negb (truthyBool demo (Get form "noCache")) = false
                  ∨ get (queryCache memServer) (cacheKey form) = None)
    by (right; vm_compute; reflexivity).
  assert (Hrange : dateParamToEpoch demo (Get form "from") (90 - 24 * 3600)
                   ≠ dateParamToEpoch demo (Get form "until") 90)
    by (vm_compute; discriminate).
  destruct (renderHandler_stores_result demo ps 90 90 memServer loop.1.2 loop.2
              Hmiss Hrange Hloop) as (_ & Hafter & _ & Hfit).
  exists loop.1.2, loop.2. split; [exact Hloop|]. split; [exact Hafter|].
  apply Hfit; [vm_compute; reflexivity | lia].
Defined.

End render_examples.

(* ------------------------------------------------------------------ *)
(** ** main.go: [findCompleter] *)

Section completer_claims.
Import GoNum GoStr Cache Cairo Main.






End completer_claims.

(* ------------------------------------------------------------------ *)
(** ** cache.go: [memcachedCache.get] *)

Section memcached_claims.
Import GoNum GoStr Cache.
Variable md5Sum : string → string.



End memcached_claims.

(* ------------------------------------------------------------------ *)
(** ** main.go: [findTreejson] and [findHandler] *)

Section find_properties.
Import GoNum GoStr Cache Cairo Main Find.

Lemma Text_treeEntry basepath g : Text (treeEntry basepath g) = lastComponent (Path g).
Proof. unfold treeEntry. by destruct (IsLeaf g). Qed.

(** What the loop of [findTreejson] keeps true of [seen] and [tree] after
    the matches [ms]. *)
Lemma treeStep_fold basepath (ms : list GlobMatch) :
  let acc := foldl (treeStep basepath) (∅, []) ms in
  (∀ name, name ∈ acc.1 ↔ name ∈ Text <$> acc.2) ∧
  NoDup (Text <$> acc.2) ∧
  (∀ name, name ∈ Text <$> acc.2 ↔ name ∈ (λ g, lastComponent (Path g)) <$> ms) ∧
  (∀ t, t ∈ acc.2 → ∃ g, g ∈ ms ∧ t = treeEntry basepath g) ∧
  (∀ i g, ms !! i = Some g →
     (∀ j g', (j < i)%nat → ms !! j = Some g' →
        lastComponent (Path g') ≠ lastComponent (Path g)) →
     treeEntry basepath g ∈ acc.2).
Proof.
  induction ms as [|g ms IH] using rev_ind; simpl.
  - split_and!; try done.
    + intros name. set_solver.
    + constructor.
    + intros t Ht. by apply elem_of_nil in Ht.
  - rewrite foldl_app. simpl.
    destruct IH as (Hseen & Hnodup & Hnames & Hfrom & Hfirst).
    set (acc := foldl (treeStep basepath) (∅, []) ms) in *.
    unfold treeStep at 1 2 3 4 5 6.
    destruct (decide (lastComponent (Path g) ∈ acc.1)) as [Hin|Hnew].
    + split_and!; try done.
      * intros name. rewrite Hnames, fmap_app, elem_of_app. simpl.
        split; [auto|]. intros [H|H]; [done|].
        apply list_elem_of_singleton in H as ->. by apply Hnames, Hseen.
      * intros t Ht. destruct (Hfrom t Ht) as (g' & Hg' & ->).
        exists g'. split; [|done]. apply elem_of_app. by left.
      * intros i g0 Hi Hbefore.
        destruct (decide (i < length ms)%nat) as [Hlt|Hge].
        -- rewrite lookup_app_l in Hi by done.
           apply (Hfirst i g0 Hi). intros j g' Hj Hg'.
           apply (Hbefore j g' Hj). rewrite lookup_app_l; [done|lia].
        -- exfalso.
           assert (i = length ms) as ->.
           { apply lookup_lt_Some in Hi. rewrite length_app in Hi. simpl in Hi. lia. }
           rewrite lookup_app_r, Nat.sub_diag in Hi by lia. simpl in Hi. simplify_eq.
           apply Hseen, Hnames, list_elem_of_fmap in Hin as (g' & Heq & Hg').
           apply list_elem_of_lookup in Hg' as [j Hj].
           apply (Hbefore j g'); [by apply lookup_lt_Some in Hj| |done].
           rewrite lookup_app_l; [done|by apply lookup_lt_Some in Hj].
    + simpl. split_and!.
      * intros name. rewrite fmap_app, elem_of_app, elem_of_union, elem_of_singleton.
        simpl. rewrite Text_treeEntry, list_elem_of_singleton, Hseen. tauto.
      * rewrite fmap_app. simpl. apply NoDup_app. split_and!; [done| |apply NoDup_singleton].
        intros name Hname. rewrite Text_treeEntry, list_elem_of_singleton. intros ->.
        by apply Hnew, Hseen.
      * intros name. rewrite !fmap_app, !elem_of_app. simpl.
        by rewrite Text_treeEntry, Hnames.
      * intros t [Ht|Ht]%elem_of_app.
        -- destruct (Hfrom t Ht) as (g' & Hg' & ->).
           exists g'. split; [|done]. apply elem_of_app. by left.
        -- apply list_elem_of_singleton in Ht as ->. exists g. split; [|done].
           apply elem_of_app. right. by apply list_elem_of_singleton.
      * intros i g0 Hi Hbefore. apply elem_of_app.
        destruct (decide (i < length ms)%nat) as [Hlt|Hge].
        -- left. rewrite lookup_app_l in Hi by done.
           apply (Hfirst i g0 Hi). intros j g' Hj Hg'.
           apply (Hbefore j g' Hj). rewrite lookup_app_l; [done|lia].
        -- right.
           assert (i = length ms) as ->.
           { apply lookup_lt_Some in Hi. rewrite length_app in Hi. simpl in Hi. lia. }
           rewrite lookup_app_r, Nat.sub_diag in Hi by lia. simpl in Hi. simplify_eq.
           by apply list_elem_of_singleton.
Qed.

(** X1. [findTreejson] returns no error and lists every last path
    component of the matches exactly once: the texts of the tree have no
    duplicate and are the names that occur among the matches. *)
Theorem findTreejson_dedup (jsonString : string → string) (globs : GlobResponse) :
  (findTreejson jsonString globs).2 = None ∧
  NoDup (Text <$> treeLoop globs) ∧
  (∀ name, name ∈ Text <$> treeLoop globs ↔
           name ∈ (λ g, lastComponent (Path g)) <$> Matches globs).
Proof.
  destruct (treeStep_fold (basepathOf (GlobName globs)) (Matches globs))
    as (_ & Hnodup & Hnames & _).
  split_and!; done.
Qed.

Lemma NoDup_fmap_elem {A B} (f : A → B) (l : list A) x y :
  NoDup (f <$> l) → x ∈ l → y ∈ l → f x = f y → x = y.
Proof.
  intros Hnodup [a Ha]%list_elem_of_lookup [b Hb]%list_elem_of_lookup Heq.
  assert (a = b) as ->; [|congruence].
  apply (NoDup_lookup _ a b (f x) Hnodup); rewrite list_lookup_fmap.
  - by rewrite Ha.
  - rewrite Hb. simpl. by rewrite Heq.
Qed.

(** X2. Every entry of the tree is built from a match: its id is the base
    path of the query followed by its text, and it is flagged either as a
    leaf or as expandable with children, never both. The first match with
    a given last component is the one that makes the entry of that name:
    the entry is in the tree, and it is the only entry with that text, so
    later matches with the same last component are dropped whatever their
    path and leaf status. *)
Theorem findTreejson_first_wins (globs : GlobResponse) :
  let basepath := basepathOf (GlobName globs) in
  (∀ t, t ∈ treeLoop globs →
     ID t = basepath +:+ Text t ∧
     (∃ g, g ∈ Matches globs ∧ Text t = lastComponent (Path g)) ∧
     (Leaf t = 1 ∧ AllowChildren t = 0 ∧ Expandable t = 0
      ∨ Leaf t = 0 ∧ AllowChildren t = 1 ∧ Expandable t = 1)) ∧
  (∀ i g, Matches globs !! i = Some g →
     (∀ j g', (j < i)%nat → Matches globs !! j = Some g' →
        lastComponent (Path g') ≠ lastComponent (Path g)) →
     treeEntry basepath g ∈ treeLoop globs ∧
     ∀ t, t ∈ treeLoop globs → Text t = lastComponent (Path g) →
          t = treeEntry basepath g).
Proof.
  intros basepath.
  destruct (treeStep_fold basepath (Matches globs))
    as (_ & Hnodup & Hnames & Hfrom & Hfirst).
  fold (treeLoop globs) in *.
  split.
  - intros t Ht. destruct (Hfrom t Ht) as (g & Hg & ->).
    rewrite Text_treeEntry. unfold treeEntry.
    destruct (IsLeaf g); simpl; split_and!; eauto.
  - intros i g Hg Hbefore.
    pose proof (Hfirst i g Hg Hbefore) as Hin. split; [done|].
    intros t Ht Htext.
    apply (NoDup_fmap_elem Text (treeLoop globs)); try done.
    by rewrite Text_treeEntry.
Qed.

Lemma findTreejson_first_wins_witness :
  let globs := MkGlobResponse "a.*" [MkGlobMatch "a.b" true; MkGlobMatch "c.b" false] in
  treeEntry "a." (MkGlobMatch "a.b" true) ∈ treeLoop globs ∧
  ∀ t, t ∈ treeLoop globs → Text t = "b" → t = Treejson 0 0 1 "a.b" "b".
Proof.
  intros globs.
  assert (Hg : Matches globs !! 0%nat = Some (MkGlobMatch "a.b" true)) by reflexivity.
  assert (Hbefore : ∀ j g', (j < 0)%nat → Matches globs !! j = Some g' →
            lastComponent (Path g') ≠ lastComponent (Path (MkGlobMatch "a.b" true)))
    by (intros j g' Hj; lia).
  exact (proj2 (findTreejson_first_wins globs) 0%nat _ Hg Hbefore).
Defined.

(** X3. [findHandler] refuses a request without [query] with a 400 and
    does not call the zipper. With a query it calls [Zipper.Find] exactly
    once, on the query; a failed [Find] gives a 500, and a successful one a
    200 response written as JSON (as JavaScript when [jsonp] is given),
    whose body is empty for a format other than [treejson], [json] and
    [completer]. *)
Theorem findHandler_responses (jsonString : string → string) (X : collaborators)
    (form : UrlValues) (log : list zipperCall) :
  let r := findHandler jsonString X form log in
  let query := Get form "query" in
  let format := Get form "format" in
  let jsonp := Get form "jsonp" in
  (query = "" →
   r = (httpError "missing parameter `query`" StatusBadRequest, log)) ∧
  (query ≠ "" →
   r.2 = log ++ [CallFind query] ∧
   (zipperFind X log query = None →
    r.1 = httpError "Internal Server Error" StatusInternalServerError) ∧
   (∀ globs, zipperFind X log query = Some globs →
      status r.1 = StatusOK ∧
      contentType r.1 = Some (if decide (jsonp ≠ "") then contentTypeJavaScript
                              else contentTypeJSON) ∧
      (format = "" ∨ format = "treejson" ∨ format = "json" →
       r.1 = writeResponse (findTreejson jsonString globs).1 "json" jsonp) ∧
      (format = "completer" →
       r.1 = writeResponse (findCompleter jsonString globs).1 "json" jsonp) ∧
      (format ∉ ["";  "treejson"; "json"; "completer"] →
       r.1 = writeResponse "" "json" jsonp))).
Proof.
  intros r query format jsonp. split.
  - intros Hq. unfold r, findHandler. fold query. by rewrite decide_True.
  - intros Hq. unfold r, findHandler. fold query format jsonp.
    rewrite decide_False by done.
    destruct (zipperFind X log query) as [globs|] eqn:Hfind; [|done].
    assert (Hwrite : ∀ b, status (writeResponse b "json" jsonp) = StatusOK ∧
              contentType (writeResponse b "json" jsonp) =
                Some (if decide (jsonp ≠ "") then contentTypeJavaScript
                      else contentTypeJSON)).
    { intros b. unfold writeResponse. rewrite decide_True by done.
      by destruct (decide (jsonp ≠ "")). }
    destruct (decide (format = "")) as [Hf|Hf].
    + rewrite decide_True by auto. simpl.
      split_and!; try done. intros ? [= <-].
      split_and!; try apply Hwrite; try done.
      * intros Hc. by rewrite Hf in Hc.
      * intros Hn. exfalso. apply Hn. rewrite Hf. apply list_elem_of_here.
    + destruct (decide (format = "treejson" ∨ format = "json")) as [Ht|Ht]; simpl.
      * split_and!; try done. intros ? [= <-].
        split_and!; try apply Hwrite; try done.
        -- intros Hc. destruct Ht as [Ht|Ht]; by rewrite Hc in Ht.
        -- intros Hn. exfalso. apply Hn.
           destruct Ht as [-> | ->];
             repeat first [apply list_elem_of_here | apply list_elem_of_further].
      * destruct (decide (format = "completer")) as [Hc|Hc]; simpl.
        -- split_and!; try done. intros ? [= <-].
           split_and!; try apply Hwrite; try done.
           ++ intros [?|[?|?]]; [done| |]; exfalso; apply Ht; auto.
           ++ intros Hn. exfalso. apply Hn. rewrite Hc.
              repeat first [apply list_elem_of_here | apply list_elem_of_further].
        -- split_and!; try done. intros ? [= <-].
           split_and!; try apply Hwrite; try done.
           intros [?|[?|?]]; [done| |]; exfalso; apply Ht; auto.
Qed.

End find_properties.

(* ------------------------------------------------------------------ *)
(** ** cairo.go: [hexToRGBA] *)

Section colour_properties.
Import GoNum GoStr Cairo Axes.

Lemma byteOf_bound a : 0 ≤ byteOf a < 256.
Proof.
  unfold byteOf. pose proof (Ascii.N_ascii_bounded a). lia.
Qed.

Lemma nibble_cases d : 0 ≤ d < 16 →
  d = 0 ∨ d = 1 ∨ d = 2 ∨ d = 3 ∨ d = 4 ∨ d = 5 ∨ d = 6 ∨ d = 7 ∨
  d = 8 ∨ d = 9 ∨ d = 10 ∨ d = 11 ∨ d = 12 ∨ d = 13 ∨ d = 14 ∨ d = 15.
Proof. lia. Qed.

Lemma hexVal_hexDigit upper d :
  0 ≤ d < 16 →
  hexVal (hexDigit upper d) = Some d ∧ Ascii.eqb (hexDigit upper d) "#" = false.
Proof.
  intros Hd. destruct upper;
    repeat (destruct (nibble_cases d Hd) as [->|Hd']; [by vm_compute|clear Hd; rename Hd' into Hd]);
    (repeat (destruct Hd as [->|Hd]; [by vm_compute|])); subst; by vm_compute.
Qed.

(** Two hexadecimal digits of a byte parse back to the byte. *)
Lemma parseHex_hexByte upper a acc s :
  parseHex acc (hexByte upper a +:+ s) = parseHex (acc * 256 + byteOf a) s.
Proof.
  pose proof (byteOf_bound a) as Ha.
  assert (Hhi : 0 ≤ byteOf a `div` 16 < 16) by (Z.div_mod_to_equations; lia).
  assert (Hlo : 0 ≤ byteOf a `mod` 16 < 16) by (Z.div_mod_to_equations; lia).
  unfold hexByte. simpl.
  rewrite (proj1 (hexVal_hexDigit upper _ Hhi)). simpl.
  rewrite (proj1 (hexVal_hexDigit upper _ Hlo)). simpl.
  f_equal. Z.div_mod_to_equations; lia.
Qed.

Lemma shift_bytes3 r g b :
  0 ≤ r < 256 → 0 ≤ g < 256 → 0 ≤ b < 256 →
  let rgb := (r * 256 + g) * 256 + b in
  uint8 (rgb ≫ 16) = r ∧ uint8 (rgb ≫ 8) = g ∧ uint8 rgb = b ∧ 0 ≤ rgb < 2 ^ 24.
Proof.
  intros Hr Hg Hb rgb. unfold uint8, rgb.
  rewrite !Z.shiftr_div_pow2 by lia.
  change (2 ^ 16) with 65536. change (2 ^ 8) with 256. change (2 ^ 24) with 16777216.
  split_and!; Z.div_mod_to_equations; lia.
Qed.

Lemma shift_bytes4 r g b a :
  0 ≤ r < 256 → 0 ≤ g < 256 → 0 ≤ b < 256 → 0 ≤ a < 256 →
  let rgb := ((r * 256 + g) * 256 + b) * 256 + a in
  uint8 (rgb ≫ 24) = r ∧ uint8 (rgb ≫ 16) = g ∧ uint8 (rgb ≫ 8) = b ∧
  uint8 rgb = a ∧ 0 ≤ rgb < 2 ^ 32.
Proof.
  intros Hr Hg Hb Ha rgb. unfold uint8, rgb.
  rewrite !Z.shiftr_div_pow2 by lia.
  change (2 ^ 16) with 65536. change (2 ^ 8) with 256. change (2 ^ 24) with 16777216.
  change (2 ^ 32) with 4294967296.
  split_and!; Z.div_mod_to_equations; lia.
Qed.

Lemma hexByte_first upper a s :
  ∃ c rest, hexByte upper a +:+ s = String c rest ∧ Ascii.eqb c "#" = false.
Proof.
  pose proof (byteOf_bound a) as Ha.
  assert (Hhi : 0 ≤ byteOf a `div` 16 < 16) by (Z.div_mod_to_equations; lia).
  eexists _, _. split; [reflexivity|]. apply (hexVal_hexDigit upper _ Hhi).
Qed.

Lemma hexByte_length upper a s :
  String.length (hexByte upper a +:+ s) = S (S (String.length s)).
Proof. reflexivity. Qed.

(** X4. [hexToRGBA] reads back the colour written in hexadecimal: six
    digits, in lower or upper case and with or without the leading [#],
    give their red, green and blue bytes with the alpha 255; eight digits
    give the fourth byte as alpha. *)
Theorem hexToRGBA_round_trip (upper : bool) (r g b a : Ascii.ascii) :
  let rgb := hexByte upper r +:+ hexByte upper g +:+ hexByte upper b in
  let rgba := hexByte upper r +:+ hexByte upper g +:+ hexByte upper b
              +:+ hexByte upper a in
  hexToRGBA rgb = MkRGBA (byteOf r) (byteOf g) (byteOf b) 255 ∧
  hexToRGBA ("#" +:+ rgb) = MkRGBA (byteOf r) (byteOf g) (byteOf b) 255 ∧
  hexToRGBA rgba = MkRGBA (byteOf r) (byteOf g) (byteOf b) (byteOf a) ∧
  hexToRGBA ("#" +:+ rgba) = MkRGBA (byteOf r) (byteOf g) (byteOf b) (byteOf a).
Proof.
  intros rgb rgba.
  pose proof (byteOf_bound r) as Hr. pose proof (byteOf_bound g) as Hg.
  pose proof (byteOf_bound b) as Hb. pose proof (byteOf_bound a) as Ha.
  destruct (shift_bytes3 _ _ _ Hr Hg Hb) as (H1 & H2 & H3 & H4).
  destruct (shift_bytes4 _ _ _ _ Hr Hg Hb Ha) as (K1 & K2 & K3 & K4 & K5).
  assert (Hparse3 : ParseUint16 rgb = Some ((byteOf r * 256 + byteOf g) * 256 + byteOf b)).
  { unfold ParseUint16, rgb. rewrite decide_False by done.
    rewrite !parseHex_hexByte.
    replace (hexByte upper b) with (hexByte upper b +:+ "") by reflexivity.
    rewrite parseHex_hexByte. simpl. rewrite decide_True by lia. done. }
  assert (Hparse4 : ParseUint16 rgba =
            Some (((byteOf r * 256 + byteOf g) * 256 + byteOf b) * 256 + byteOf a)).
  { unfold ParseUint16, rgba. rewrite decide_False by done.
    rewrite !parseHex_hexByte.
    replace (hexByte upper a) with (hexByte upper a +:+ "") by reflexivity.
    rewrite parseHex_hexByte. simpl. rewrite decide_True by lia. done. }
  destruct (hexByte_first upper r (hexByte upper g +:+ hexByte upper b))
    as (c3 & rest3 & Heq3 & Hc3).
  destruct (hexByte_first upper r
              (hexByte upper g +:+ hexByte upper b +:+ hexByte upper a))
    as (c4 & rest4 & Heq4 & Hc4).
  assert (Hlen3 : String.length rgb = 6%nat) by reflexivity.
  assert (Hlen4 : String.length rgba = 8%nat) by reflexivity.
  fold rgb in Heq3. fold rgba in Heq4.
  split_and!.
  - unfold hexToRGBA. cbv zeta. rewrite Heq3. cbv beta iota. rewrite Hc3, <- Heq3.
    destruct (decide (String.length rgb = 3%nat)) as [H|_]; [rewrite Hlen3 in H; lia|].
    rewrite Hlen3, Hparse3. repeat case_decide; try lia. simpl.
    by rewrite H1, H2, H3.
  - unfold hexToRGBA. cbv zeta. change ("#" +:+ rgb) with (String "#"%char rgb).
    cbv beta iota. rewrite Ascii.eqb_refl.
    destruct (decide (String.length rgb = 3%nat)) as [H|_]; [rewrite Hlen3 in H; lia|].
    rewrite Hlen3, Hparse3. repeat case_decide; try lia. simpl.
    by rewrite H1, H2, H3.
  - unfold hexToRGBA. cbv zeta. rewrite Heq4. cbv beta iota. rewrite Hc4, <- Heq4.
    destruct (decide (String.length rgba = 3%nat)) as [H|_]; [rewrite Hlen4 in H; lia|].
    rewrite Hlen4, Hparse4. repeat case_decide; try lia.
    by rewrite K1, K2, K3, K4.
  - unfold hexToRGBA. cbv zeta. change ("#" +:+ rgba) with (String "#"%char rgba).
    cbv beta iota. rewrite Ascii.eqb_refl.
    destruct (decide (String.length rgba = 3%nat)) as [H|_]; [rewrite Hlen4 in H; lia|].
    rewrite Hlen4, Hparse4. repeat case_decide; try lia.
    by rewrite K1, K2, K3, K4.
Qed.


End colour_properties.

(* ------------------------------------------------------------------ *)
(** ** cairo.go: [findXTimes], [closest], [frange] *)

Section axes_properties.
Import GoNum GoStr Cairo Axes.

Lemma wrap64_small x : - 2 ^ 63 ≤ x < 2 ^ 63 → wrap64 x = x.
Proof. intros H. unfold wrap64. rewrite Z.mod_small by lia. lia. Qed.

Lemma div_SecondNs x : (x * SecondNs) `div` SecondNs = x.
Proof. apply Z.div_mul. unfold SecondNs. lia. Qed.

Lemma advance_seconds fuel start s d :
  (1 ≤ fuel)%nat → s < start ≤ s + d →
  advance fuel start (s * SecondNs) (d * SecondNs) = Some ((s + d) * SecondNs).
Proof.
  intros Hfuel Hs. destruct fuel as [|fuel]; [lia|]. simpl.
  unfold SecondNs. rewrite Z.div_mul by lia. rewrite decide_True by lia.
  replace (s * 1000000000 + d * 1000000000) with ((s + d) * 1000000000) by lia.
  destruct fuel; simpl; unfold SecondNs; rewrite Z.div_mul by lia;
    by rewrite decide_False by lia.
Qed.

(** X6. For a unit of a second, a minute, an hour or a day and a step of
    at least one (whose duration fits in 64 bits of nanoseconds),
    [findXTimes] ends after at most one round of its loop and returns the
    length of the step in seconds and the first instant at or after
    [start] that is a whole number of steps away from the zero time of
    Go's clock (the year 1, which is a whole number of days before the Unix
    epoch). *)
Theorem findXTimes_aligned (fuel : nat) (start unit : Z) (step : float) :
  let n := int_of_float64 step in
  unit = 1 ∨ unit = 60 ∨ unit = 3600 ∨ unit = 86400 →
  1 ≤ n → unit * n * SecondNs < 2 ^ 63 →
  - 2 ^ 31 ≤ start < 2 ^ 31 →
  (1 ≤ fuel)%nat →
  ∃ t, findXTimes fuel start unit step = Some (wrap32 t, wrap32 (unit * n)) ∧
       start ≤ t < start + unit * n ∧
       (t + unixToInternal) `mod` (unit * n) = 0.
Proof.
  intros n Hunit Hn Hfit Hstart Hfuel.
  assert (Hu : 1 ≤ unit) by lia.
  set (δ := unit * n). assert (Hδ : 1 ≤ δ) by (unfold δ; nia).
  unfold findXTimes. fold n.
  assert (Hd : (if decide (unit = 1) then Some SecondNs
                else if decide (unit = 60) then Some (60 * SecondNs)
                else if decide (unit = 3600) then Some (3600 * SecondNs)
                else if decide (unit = 86400) then Some (24 * (3600 * SecondNs))
                else None) = Some (unit * SecondNs))
    by (destruct Hunit as [-> | [-> | [-> | ->]]]; reflexivity).
  rewrite Hd. simpl.
  replace (unit * SecondNs * n) with (δ * SecondNs) by (unfold δ; lia).
  rewrite wrap64_small by (unfold δ, SecondNs in *; lia).
  set (r := (start + unixToInternal) `mod` δ).
  assert (Hr : 0 ≤ r < δ) by (apply Z.mod_pos_bound; lia).
  assert (Htrunc : Truncate (start * SecondNs) (δ * SecondNs) = (start - r) * SecondNs).
  { unfold Truncate. rewrite decide_False by (unfold SecondNs; lia).
    replace (start * SecondNs + unixToInternal * SecondNs)
      with ((start + unixToInternal) * SecondNs) by lia.
    rewrite Z.mul_mod_distr_r by (unfold SecondNs; lia). fold r. lia. }
  rewrite Htrunc.
  assert (Hquot : Z.quot (δ * SecondNs) SecondNs = δ)
    by (apply Z.quot_mul; unfold SecondNs; lia).
  destruct (decide (r = 0)) as [Hr0|Hr0].
  - exists start. rewrite Hr0, Z.sub_0_r.
    assert (Hadv : advance fuel start (start * SecondNs) (δ * SecondNs)
                   = Some (start * SecondNs)).
    { destruct fuel; simpl; unfold SecondNs; rewrite Z.div_mul by lia;
        by rewrite decide_False by lia. }
    rewrite Hadv. simpl. rewrite div_SecondNs, Hquot.
    split_and!; [done|lia|lia|done].
  - exists (start - r + δ).
    rewrite advance_seconds by (done || lia). simpl.
    rewrite div_SecondNs, Hquot.
    split_and!; [done|lia|lia|].
    replace (start - r + δ + unixToInternal)
      with ((start + unixToInternal) - r + 1 * δ) by lia.
    rewrite Z.mod_add by lia. unfold r. rewrite Zminus_mod_idemp_r.
    rewrite Z.sub_diag. apply Z.mod_0_l. lia.
Qed.

Lemma findXTimes_aligned_witness :
  ∃ t, findXTimes 1 1000 60 5%float = Some (wrap32 t, wrap32 (60 * int_of_float64 5%float)) ∧
       1000 ≤ t < 1000 + 60 * int_of_float64 5%float ∧
       (t + unixToInternal) `mod` (60 * int_of_float64 5%float) = 0.
Proof.
  assert (H1 : 60 = 1 ∨ 60 = 60 ∨ 60 = 3600 ∨ 60 = 86400) by (right; left; reflexivity).
  assert (H2 : 1 ≤ int_of_float64 5%float) by (vm_compute; discriminate).
  assert (H3 : 60 * int_of_float64 5%float * SecondNs < 2 ^ 63) by (vm_compute; reflexivity).
  assert (H4 : - 2 ^ 31 ≤ 1000 < 2 ^ 31) by lia.
  assert (H5 : (1 ≤ 1)%nat) by lia.
  exact (findXTimes_aligned 1 1000 60 5%float H1 H2 H3 H4 H5).
Defined.

(** X7. [findXTimes] panics on a unit other than a second, a minute, an
    hour or a day. A step that converts to an integer [n <= 0] (a step
    below one) whose duration [unit * n] seconds is not below [-2^63]
    nanoseconds, so that the [int64] product does not wrap around, makes
    the duration non-positive: nothing is truncated, the loop is not
    entered, and the result is [start] itself with a step length that is
    not positive. *)
Theorem findXTimes_edges (fuel : nat) (start unit : Z) (step : float) :
  let n := int_of_float64 step in
  (unit ∉ [1; 60; 3600; 86400] → findXTimes fuel start unit step = None) ∧
  (unit ∈ [1; 60; 3600; 86400] → n ≤ 0 → - 2 ^ 63 ≤ unit * n * SecondNs →
   findXTimes fuel start unit step = Some (wrap32 start, wrap32 (unit * n)) ∧
   unit * n ≤ 0).
Proof.
  intros n. split.
  - intros Hunit. unfold findXTimes.
    repeat (rewrite decide_False;
      [|intros ->; apply Hunit;
        repeat first [apply list_elem_of_here | apply list_elem_of_further]]).
    done.
  - intros Hunit Hn Hfit.
    assert (Hcases : unit = 1 ∨ unit = 60 ∨ unit = 3600 ∨ unit = 86400).
    { repeat (apply elem_of_cons in Hunit as [Hunit|Hunit]; [auto 6|]).
      by apply elem_of_nil in Hunit. }
    assert (Hd : (if decide (unit = 1) then Some SecondNs
                  else if decide (unit = 60) then Some (60 * SecondNs)
                  else if decide (unit = 3600) then Some (3600 * SecondNs)
                  else if decide (unit = 86400) then Some (24 * (3600 * SecondNs))
                  else None) = Some (unit * SecondNs))
      by (destruct Hcases as [-> | [-> | [-> | ->]]]; reflexivity).
    assert (Hneg : unit * n ≤ 0) by nia.
    unfold findXTimes. fold n. rewrite Hd. simpl.
    replace (unit * SecondNs * n) with (unit * n * SecondNs) by lia.
    rewrite wrap64_small by (unfold SecondNs in *; lia).
    assert (Htrunc : Truncate (start * SecondNs) (unit * n * SecondNs) = start * SecondNs).
    { unfold Truncate. by rewrite decide_True by (unfold SecondNs; lia). }
    rewrite Htrunc.
    assert (Hadv : advance fuel start (start * SecondNs) (unit * n * SecondNs)
                   = Some (start * SecondNs)).
    { destruct fuel; simpl; rewrite div_SecondNs; by rewrite decide_False by lia. }
    rewrite Hadv. simpl. rewrite div_SecondNs.
    rewrite Z.quot_mul by (unfold SecondNs; lia). done.
Qed.

Lemma SFltb_trans x y z : SFltb x y = true → SFltb y z = true → SFltb x z = true.
Proof.
  unfold SFltb, SFcompare.
  destruct x as [sx|sx| |sx mx ex], y as [sy|sy| |sy my ey], z as [sz|sz| |sz mz ez];
    try discriminate; try done;
    repeat match goal with s : bool |- _ => destruct s end; try discriminate; try done.
  all: change (Pos.compare_cont Eq) with Pos.compare.
  all: destruct (Z.compare_spec ex ey), (Z.compare_spec ey ez), (Z.compare_spec ex ez);
    subst; try lia; try discriminate; try done.
  all: destruct (Pos.compare_spec mx my), (Pos.compare_spec my mz), (Pos.compare_spec mx mz);
    subst; simpl; try lia; try discriminate; try done.
Qed.

Lemma SFcompare_refl x : x ≠ S754_nan → SFcompare x x = Some Eq.
Proof.
  destruct x as [s|s| |s m e]; try done; intros _; simpl.
  - by destruct s.
  - change (Pos.compare_cont Eq) with Pos.compare.
    rewrite Z.compare_refl, Pos.compare_refl. by destruct s.
Qed.

Lemma ltb_trans (x y z : float) :
  (x <? y)%float = true → (y <? z)%float = true → (x <? z)%float = true.
Proof. rewrite !FloatAxioms.ltb_spec. apply SFltb_trans. Qed.

Lemma ltb_irrefl (x : float) : (x <? x)%float = false.
Proof.
  rewrite FloatAxioms.ltb_spec. unfold SFltb.
  destruct (Prim2SF x) as [s|s| |s m e] eqn:Hx; try done.
  - by destruct s.
  - rewrite <- Hx, SFcompare_refl; [done|]. by rewrite Hx.
Qed.

(** What the loop of [closest] keeps true of [distance] and
    [closestNeighbor]. *)
Lemma closestStep_fold number (l : list float) :
  let acc := foldl (closestStep number) (infinity, 0%float) l in
  (acc.2 ∈ l ∧ acc.1 = PrimFloat.abs (acc.2 - number)%float
   ∨ acc = (infinity, 0%float)) ∧
  ∀ n, n ∈ l → (PrimFloat.abs (n - number) <? acc.1)%float = false.
Proof.
  induction l as [|x l IH] using rev_ind; simpl.
  - split; [by right|]. intros n Hn. by apply elem_of_nil in Hn.
  - rewrite foldl_app. simpl.
    set (acc := foldl (closestStep number) (infinity, 0%float) l) in *.
    destruct IH as [Hacc Hmin].
    destruct (PrimFloat.abs (x - number) <? acc.1)%float eqn:Hlt.
    + assert (Hstep : closestStep number acc x = (PrimFloat.abs (x - number)%float, x))
        by (unfold closestStep; by rewrite Hlt).
      rewrite Hstep. simpl. split.
      * left. split; [|done]. apply elem_of_app. right. apply list_elem_of_here.
      * intros n [Hn|Hn]%elem_of_app.
        -- destruct (PrimFloat.abs (n - number) <? PrimFloat.abs (x - number))%float
             eqn:Hn'; [|done].
           pose proof (Hmin n Hn) as Hcontra.
           by rewrite (ltb_trans _ _ _ Hn' Hlt) in Hcontra.
        -- apply list_elem_of_singleton in Hn as ->. apply ltb_irrefl.
    + assert (Hstep : closestStep number acc x = acc)
        by (unfold closestStep; by rewrite Hlt).
      rewrite Hstep. split.
      * destruct Hacc as [[Hin Hd]|Hinit]; [|by right].
        left. split; [|done]. apply elem_of_app. by left.
      * intros n [Hn|Hn]%elem_of_app; [by apply Hmin|].
        by apply list_elem_of_singleton in Hn as ->.
Qed.

(** X8. [closest] returns one of the neighbours, and no neighbour is
    strictly nearer to [number] than the one returned. When no neighbour
    is at a distance below infinity (an empty list, distances that are NaN
    or infinite) it returns 0. *)
Theorem closest_nearest (number : float) (neighbours : list float) :
  (closest number neighbours ∈ neighbours ∧
   ∀ n, n ∈ neighbours →
     (PrimFloat.abs (n - number) <? PrimFloat.abs (closest number neighbours - number))%float
     = false)
  ∨ (closest number neighbours = 0%float ∧
     ∀ n, n ∈ neighbours → (PrimFloat.abs (n - number) <? infinity)%float = false).
Proof.
  destruct (closestStep_fold number neighbours) as [Hacc Hmin].
  unfold closest.
  destruct Hacc as [[Hin Hd]|Hinit].
  - left. split; [done|]. intros n Hn. rewrite <- Hd. by apply Hmin.
  - right. rewrite Hinit in *. simpl in *. split; [done|]. apply Hmin.
Qed.

Lemma leb_not_nan (x y : float) : (x <=? y)%float = true → Prim2SF x ≠ S754_nan.
Proof.
  rewrite FloatAxioms.leb_spec. unfold SFleb. intros H Hx. by rewrite Hx in H.
Qed.

(** Adding zero to a number gives a float that compares equal to it. *)
Lemma add_zero_eqb (x : float) :
  Prim2SF x ≠ S754_nan → ((x + 0) =? x)%float = true.
Proof.
  intros Hx. rewrite FloatAxioms.eqb_spec, FloatAxioms.add_spec.
  replace (Prim2SF 0) with (S754_zero false) by reflexivity.
  unfold SF64add, SFeqb.
  destruct (Prim2SF x) as [s|s| |s m e] eqn:Heq; try done.
  - by destruct s.
  - by destruct s.
  - simpl. change (Pos.compare_cont Eq) with Pos.compare.
    rewrite Z.compare_refl, Pos.compare_refl. by destruct s.
Qed.

(** X9. The guard of [frange] against a step that makes no progress: with
    a zero step and [start <= end] the result is [start] followed by
    [end], after one round of the loop. When [start <= end] does not hold
    (also when one of them is NaN) the result is the empty slice. *)
Theorem frange_zero_step (fuel : nat) (start end_ : float) :
  ((start <=? end_)%float = true → (1 ≤ fuel)%nat →
   frange fuel start end_ 0%float = Some [start; end_]) ∧
  (∀ step, (start <=? end_)%float = false → frange fuel start end_ step = Some []).
Proof.
  split.
  - intros Hle Hfuel. unfold frange. destruct fuel as [|fuel]; [lia|]. simpl.
    rewrite Hle. by rewrite add_zero_eqb by (by eapply leb_not_nan).
  - intros step Hgt. unfold frange. destruct fuel; simpl; by rewrite Hgt.
Qed.

Lemma frange_zero_step_witness :
  (2 <=? 7)%float = true ∧ (1 ≤ 1)%nat ∧
  frange 1 2%float 7%float 0%float = Some [2; 7]%float.
Proof.
  assert (H1 : (2 <=? 7)%float = true) by reflexivity.
  assert (H2 : (1 ≤ 1)%nat) by lia.
  split; [exact H1|]. split; [exact H2|].
  exact (proj1 (frange_zero_step 1 2%float 7%float) H1 H2).
Defined.

End axes_properties.

(* ------------------------------------------------------------------ *)
(** ** cairo.go: more on the consolidation *)

Section consolidation_properties.
Import GoNum Cairo.

Lemma rawCopy_short i vs absent :
  (0 < length vs)%nat → (length absent < i + length vs)%nat →
  rawCopy i vs absent = None.
Proof.
  revert i. induction vs as [|x vs IH]; intros i Hpos Hlen; simpl in *; [lia|].
  destruct (absent !! i) as [a|] eqn:Ha; simpl; [|done].
  apply lookup_lt_Some in Ha.
  by rewrite IH by lia.
Qed.

Lemma tailBucket_short v absent acc :
  (length absent < length v)%nat → tailBucket v absent acc = None.
Proof.
  revert absent acc. induction v as [|x v IH]; intros absent acc Hlen; simpl in *; [lia|].
  destruct absent as [|a absent]; simpl.
  - unfold accumulate. by destruct (PrimFloat.is_nan x).
  - destruct (accumulate x (Some a) acc) as [acc'|]; simpl; [|done].
    rewrite drop_0. apply IH. simpl in Hlen. lia.
Qed.

Lemma tailBucket_long v absent acc :
  (length v ≤ length absent)%nat → is_Some (tailBucket v absent acc).
Proof.
  revert absent acc. induction v as [|x v IH]; intros absent acc Hlen; simpl in *; [done|].
  destruct absent as [|a absent]; simpl in *; [lia|].
  unfold accumulate. rewrite drop_0.
  destruct (PrimFloat.is_nan x); simpl; [apply IH; lia|].
  destruct a; simpl; apply IH; lia.
Qed.

(** The loop over the full buckets panics, or leaves fewer flags than
    values, when there are fewer flags than values. *)
Lemma fullBuckets_short fuel vpp v absent avg :
  (1 ≤ vpp)%nat → (length absent < length v)%nat → (length v ≤ fuel)%nat →
  fullBuckets fuel vpp v absent avg = None
  ∨ ∃ avg' v' absent', fullBuckets fuel vpp v absent avg = Some (avg', v', absent')
                       ∧ (length absent' < length v')%nat.
Proof.
  intros Hvpp. revert v absent avg.
  induction fuel as [|fuel IH]; intros v absent avg Hshort Hfuel; simpl.
  - lia.
  - destruct (decide (vpp ≤ length v)%nat) as [Hle|Hgt]; [|right; eauto].
    destruct (decide (vpp ≤ length absent)%nat) as [Hla|Hla].
    + rewrite bucketStep_fold by lia. simpl. unfold sliceFrom.
      rewrite decide_True by done. simpl.
      apply IH; rewrite !length_drop; lia.
    + left. destruct (foldl _ _ _); simpl; [|done].
      unfold sliceFrom. by rewrite decide_False.
Qed.

Lemma fullBuckets_long fuel vpp v absent avg :
  (1 ≤ vpp)%nat → (length v ≤ length absent)%nat → (length v ≤ fuel)%nat →
  ∃ avg' v' absent', fullBuckets fuel vpp v absent avg = Some (avg', v', absent')
                     ∧ (length v' ≤ length absent')%nat.
Proof.
  intros Hvpp. revert v absent avg.
  induction fuel as [|fuel IH]; intros v absent avg Hlong Hfuel; simpl.
  - rewrite decide_False by lia. eauto.
  - destruct (decide (vpp ≤ length v)%nat) as [Hle|Hgt]; [|eauto].
    rewrite bucketStep_fold by lia. simpl. unfold sliceFrom.
    rewrite decide_True by lia. simpl.
    apply IH; rewrite !length_drop; lia.
Qed.

(** X10. When the memo is not set, [AggregatedValues] panics exactly when
    [valuesPerPoint] is negative or the series has fewer absence flags than
    values (more flags than values are tolerated). When the memo is set it
    never panics: the memo is returned without a look at the fields. *)
Theorem AggregatedValues_panics (r : metricData) :
  (aggregatedValues r = None →
   (AggregatedValues r = None ↔
    valuesPerPoint r < 0 ∨ (length (IsAbsent r) < length (Values r))%nat)) ∧
  (∀ a, aggregatedValues r = Some a → AggregatedValues r = Some (a, r)).
Proof.
  split; [|by intros a Ha; unfold AggregatedValues; rewrite Ha].
  intros Hfresh. unfold AggregatedValues. rewrite Hfresh.
  assert (Hnone : computeAggregated r = None ↔
            valuesPerPoint r < 0 ∨ (length (IsAbsent r) < length (Values r))%nat).
  { unfold computeAggregated.
    destruct (decide (valuesPerPoint r = 1 ∨ valuesPerPoint r = 0)) as [Hraw|Hcons].
    - destruct (decide (length (IsAbsent r) < length (Values r))%nat) as [Hs|Hl].
      + rewrite rawCopy_short by lia. split; auto.
      + rewrite rawCopy_spec by lia. split; [done|]. intros [?|?]; lia.
    - destruct (decide (valuesPerPoint r < 0)) as [Hneg|Hpos]; [split; auto|].
      destruct (decide (length (IsAbsent r) < length (Values r))%nat) as [Hs|Hl].
      + split; [auto|intros _].
        destruct (fullBuckets_short (S (length (Values r))) (Z.to_nat (valuesPerPoint r))
                    (Values r) (IsAbsent r) []) as [->|(avg & v & absent & -> & Hlt)];
          [lia|lia|lia|done|].
        simpl. rewrite decide_True by lia. by rewrite tailBucket_short.
      + destruct (fullBuckets_long (S (length (Values r))) (Z.to_nat (valuesPerPoint r))
                    (Values r) (IsAbsent r) []) as (avg & v & absent & -> & Hge);
          [lia|lia|lia|].
        simpl. split; [|intros [?|?]; lia].
        destruct (decide (0 < length v)%nat); [|done].
        by destruct (tailBucket_long v absent (0%float, 0) Hge) as [acc ->]. }
  destruct (computeAggregated r) as [a|] eqn:Hc; simpl.
  - split; [done|]. intros H. by apply Hnone in H.
  - split; [|done]. intros _. by apply Hnone.
Qed.

(** X11. A second call of [AggregatedValues] returns what the first call
    returned and leaves the series as the first call left it; the first
    call changes nothing but the memo. *)
Theorem AggregatedValues_idempotent (r r' : metricData) (a : list float) :
  AggregatedValues r = Some (a, r') →
  AggregatedValues r' = Some (a, r') ∧
  r' = set_aggregatedValues (Some a) r.
Proof.
  intros Hfirst.
  destruct (AggregatedValues_memo_set _ _ _ Hfirst) as (Hmemo & _).
  split; [by unfold AggregatedValues; rewrite Hmemo|].
  unfold AggregatedValues in Hfirst.
  destruct (aggregatedValues r) as [b|] eqn:Hb; simplify_eq/=.
  - destruct r'; simpl in *. by subst.
  - destruct (computeAggregated r); by simplify_eq/=.
Qed.

Lemma AggregatedValues_idempotent_witness :
  let r := MetricData "x" 0 180 60 [1; 2; 3]%float [false; true; false] 2 0%float None in
  AggregatedValues r = Some ([1; 3]%float, set_aggregatedValues (Some [1; 3]%float) r) ∧
  AggregatedValues (set_aggregatedValues (Some [1; 3]%float) r) =
    Some ([1; 3]%float, set_aggregatedValues (Some [1; 3]%float) r).
Proof.
  intros r.
  assert (H : AggregatedValues r =
              Some ([1; 3]%float, set_aggregatedValues (Some [1; 3]%float) r))
    by (vm_compute; reflexivity).
  split; [exact H|]. exact (proj1 (AggregatedValues_idempotent _ _ _ H)).
Defined.

Lemma wrap32_small x : - 2 ^ 31 ≤ x < 2 ^ 31 → wrap32 x = x.
Proof. intros H. unfold wrap32. rewrite Z.mod_small by lia. lia. Qed.

(** X12. The aggregated points span the time of the raw points: for a
    series with a positive step whose aggregated step fits in 32 bits,
    [AggregatedTimeStep] is the step times [valuesPerPoint], and the
    number of aggregated values times that step is at least the number of
    values times the step, and exceeds it by less than one aggregated
    step. *)
Theorem AggregatedTimeStep_covers (r r' : metricData) (out : list float) :
  1 ≤ valuesPerPoint r →
  0 < StepTime r →
  StepTime r * valuesPerPoint r < 2 ^ 31 →
  length (Values r) = length (IsAbsent r) →
  memoValid r →
  AggregatedValues r = Some (out, r') →
  AggregatedTimeStep r = StepTime r * valuesPerPoint r ∧
  StepTime r * Z.of_nat (length (Values r))
    ≤ Z.of_nat (length out) * AggregatedTimeStep r
    < StepTime r * Z.of_nat (length (Values r)) + AggregatedTimeStep r.
Proof.
  intros Hvpp Hstep Hfit Hlen Hmemo Hagg.
  assert (Hats : AggregatedTimeStep r = StepTime r * valuesPerPoint r).
  { unfold AggregatedTimeStep. case_decide as H1.
    - destruct H1 as [H1 | H1]; rewrite H1 in *; lia.
    - rewrite (wrap32_small (valuesPerPoint r)) by nia. apply wrap32_small. nia. }
  assert (Hcount : Z.of_nat (length out) = bucketCount r).
  { pose proof (bucketCount_nonneg r Hvpp).
    destruct (decide (valuesPerPoint r = 1)) as [H1|H1].
    - pose proof (computeAggregated_raw r (or_introl H1) Hlen) as Hc.
      rewrite (AggregatedValues_memoValid r _ Hmemo Hc) in Hagg. simplify_eq.
      rewrite length_zip_with. unfold bucketCount. rewrite H1, Z.div_1_r. lia.
    - pose proof (computeAggregated_buckets r ltac:(lia) Hlen) as Hc.
      rewrite (AggregatedValues_memoValid r _ Hmemo Hc) in Hagg. simplify_eq.
      rewrite length_map, length_seq. lia. }
  split; [done|]. rewrite Hats, Hcount. unfold bucketCount.
  set (n := Z.of_nat (length (Values r))). set (v := valuesPerPoint r) in *.
  assert (Hn : 0 ≤ n) by (unfold n; lia).
  pose proof (Z.div_mod (n + v - 1) v ltac:(lia)) as Hdm.
  pose proof (Z.mod_pos_bound (n + v - 1) v ltac:(lia)) as Hb.
  nia.
Qed.

Lemma AggregatedTimeStep_covers_witness :
  let r := MetricData "x" 0 300 60 [1; 2; 3; 4; 5]%float
             [false; false; false; false; false] 2 0%float None in
  AggregatedTimeStep r = 120 ∧
  ∃ out r', AggregatedValues r = Some (out, r') ∧
    60 * 5 ≤ Z.of_nat (length out) * AggregatedTimeStep r < 60 * 5 + AggregatedTimeStep r.
Proof.
  intros r.
  assert (H1 : 1 ≤ valuesPerPoint r) by (simpl; lia).
  assert (H2 : 0 < StepTime r) by (simpl; lia).
  assert (H3 : StepTime r * valuesPerPoint r < 2 ^ 31) by (simpl; lia).
  assert (H4 : length (Values r) = length (IsAbsent r)) by reflexivity.
  assert (H5 : memoValid r) by (intros a Ha; discriminate Ha).
  assert (H6 : AggregatedValues r =
               Some ([1.5; 3.5; 5]%float,
                     set_aggregatedValues (Some [1.5; 3.5; 5]%float) r))
    by (vm_compute; reflexivity).
  destruct (AggregatedTimeStep_covers r _ _ H1 H2 H3 H4 H5 H6) as [Ha Hb].
  split; [exact Ha|]. eexists _, _. split; [exact H6|exact Hb].
Defined.

End consolidation_properties.

(* ------------------------------------------------------------------ *)
(** ** cairo.go: consolidation of a request, and the unit prefixes *)

Section units_properties.
Import GoNum Cairo.

Lemma consolidateSeries_None params r :
  consolidateSeries params r = None ↔ StepTime r = 0.
Proof.
  unfold consolidateSeries, div32.
  destruct (decide (StepTime r = 0)) as [Hz|Hnz]; simpl; [done|].
  split; [|done]. by destruct (_ <? _)%float.
Qed.

Lemma consolidateSeries_Some params r r' :
  consolidateSeries params r = Some r' →
  r' = set_consolidation (valuesPerPoint r') (xStep r') r.
Proof.
  unfold consolidateSeries. intros H.
  destruct (div32 _ _); simplify_eq/=.
  by destruct (_ <? _)%float; simplify_eq/=.
Qed.

(** X13. [consolidateDataPoints] panics exactly when one of the series has
    a zero step (the integer division by the step). Otherwise it returns as
    many series, in order, each changed in [valuesPerPoint] and [xStep]
    only (name, times, values, absence flags and the memo of
    [AggregatedValues] are kept), and it sets [graphWidth] to the number of
    pixels, leaving the rest of the parameters alone. *)
Theorem consolidateDataPoints_effect (params : Params) (results : list metricData) :
  (consolidateDataPoints params results = None ↔
   ∃ r, r ∈ results ∧ StepTime r = 0) ∧
  (∀ params' results',
     consolidateDataPoints params results = Some (params', results') →
     params' = MkParams (area_xmin params) (area_xmax params) (lineWidth params)
                 (timeRange params) (int_of_float64 (numberOfPixels params)) ∧
     Forall2 (λ r r', r' = set_consolidation (valuesPerPoint r') (xStep r') r)
       results results').
Proof.
  unfold consolidateDataPoints. split.
  - destruct (mapM (consolidateSeries params) results) as [rs|] eqn:Hm; simpl.
    + split; [done|]. intros (r & Hin & Hz).
      assert (Hnone : mapM (consolidateSeries params) results = None).
      { apply mapM_None, Exists_exists. exists r. split; [done|].
        by apply consolidateSeries_None. }
      congruence.
    + split; [|done]. intros _.
      apply mapM_None, Exists_exists in Hm as (r & Hin & Hr).
      exists r. split; [done|]. by apply consolidateSeries_None in Hr.
  - intros params' results' H.
    destruct (mapM (consolidateSeries params) results) as [rs|] eqn:Hm; simplify_eq/=.
    split; [done|].
    apply mapM_Some_1 in Hm.
    eapply Forall2_impl; [exact Hm|]. intros r r' Hr. simpl in Hr.
    by apply consolidateSeries_Some in Hr.
Qed.

Lemma formatUnitsLoop_first condition v us :
  (formatUnitsLoop condition v us = (roundIfIntegral v v, "") ∧
   ∀ p, p ∈ us → condition (float64_of_int (size p)) = false)
  ∨ ∃ pre p post, us = pre ++ p :: post ∧
      (∀ q, q ∈ pre → condition (float64_of_int (size q)) = false) ∧
      condition (float64_of_int (size p)) = true ∧
      formatUnitsLoop condition v us =
        (roundIfIntegral (v / float64_of_int (size p))%float v, prefix p).
Proof.
  induction us as [|p us IH]; simpl.
  - left. split; [done|]. intros p Hp. by apply elem_of_nil in Hp.
  - destruct (condition (float64_of_int (size p))) eqn:Hc.
    + right. exists [], p, us. split_and!; try done.
      intros q Hq. by apply elem_of_nil in Hq.
    + destruct IH as [[Heq Hall]|(pre & p' & post & -> & Hpre & Hp' & Heq)].
      * left. split; [done|]. intros q [->|Hq]%elem_of_cons; auto.
      * right. exists (p :: pre), p', post. split_and!; try done.
        intros q [->|Hq]%elem_of_cons; auto.
Qed.

Lemma sorted_before (us pre post : list unitPrefix) p q :
  StronglySorted (λ a b, size b < size a) us →
  us = pre ++ p :: post → q ∈ us → size p < size q → q ∈ pre.
Proof.
  intros Hs -> Hq Hlt.
  apply elem_of_app in Hq as [Hq|Hq]; [done|].
  apply StronglySorted_app in Hs as (_ & _ & Hs).
  apply StronglySorted_inv in Hs as [_ Hall].
  apply elem_of_cons in Hq as [->|Hq]; [lia|].
  rewrite Forall_forall in Hall. specialize (Hall q Hq). simpl in Hall. lia.
Qed.

Lemma unitSystems_sorted system us :
  unitSystems !! system = Some us →
  StronglySorted (λ a b, size b < size a) us.
Proof.
  unfold unitSystems. intros H.
  apply lookup_insert_Some in H as [[_ <-]|[_ H]].
  { repeat (constructor; [|repeat constructor; simpl; lia]). constructor. }
  apply lookup_insert_Some in H as [[_ <-]|[_ H]].
  { repeat (constructor; [|repeat constructor; simpl; lia]). constructor. }
  by rewrite lookup_empty in H.
Qed.

(** X14. [formatUnits] picks the largest unit of the system that fits both
    the value and the step. Either no unit of the system has
    [size <= |v|] and [size <= step], and the value comes back without
    prefix; or the prefix is that of a unit which fits, the value is
    divided by its size, and every larger unit of the system does not fit.
    A system other than the two of [unitSystems] has no unit. (Both
    results are rounded down when they are within 1e-11 above an integer
    and [v > 1].) *)
Theorem formatUnits_largest_fit (v step : float) (system : string) :
  let us := default [] (unitSystems !! system) in
  (system ≠ "si" → system ≠ "binary" → us = []) ∧
  ((formatUnits v step system = (roundIfIntegral v v, "") ∧
    ∀ p, p ∈ us → conditionValueStep v step (float64_of_int (size p)) = false)
   ∨ ∃ p, p ∈ us ∧ conditionValueStep v step (float64_of_int (size p)) = true ∧
       formatUnits v step system =
         (roundIfIntegral (v / float64_of_int (size p))%float v, prefix p) ∧
       ∀ q, q ∈ us → size p < size q → conditionValueStep v step (float64_of_int (size q)) = false).
Proof.
  intros us. split.
  - intros Hsi Hbin. unfold us, unitSystems.
    by rewrite !lookup_insert_ne, lookup_empty by done.
  - assert (Hsorted : StronglySorted (λ a b, size b < size a) us).
    { unfold us. destruct (unitSystems !! system) as [l|] eqn:Hl; simpl.
      - by apply (unitSystems_sorted system).
      - constructor. }
    unfold formatUnits. rewrite eqb_nan. fold us.
    destruct (formatUnitsLoop_first (conditionValueStep v step) v us)
      as [[Heq Hall]|(pre & p & post & Hus & Hpre & Hp & Heq)].
    + left. by split.
    + right. exists p. split_and!; try done.
      * rewrite Hus. apply elem_of_app. right. apply list_elem_of_here.
      * intros q Hq Hlt. apply Hpre. by eapply sorted_before.
Qed.

End units_properties.

(* ------------------------------------------------------------------ *)
(** ** cache.go: the key sent to memcached *)

Section memcached_properties.
Import GoNum GoStr Cache.
Variable md5Sum : string → string.

Lemma hexDigit_lower d :
  0 ≤ d < 16 → hexDigit false d ∈ String.list_ascii_of_string "0123456789abcdef".
Proof.
  intros Hd.
  destruct (nibble_cases d Hd)
    as [-> | [-> | [-> | [-> | [-> | [-> | [-> | [-> | [-> | [-> | [-> | [-> |
        [-> | [-> | [-> | ->]]]]]]]]]]]]]]];
    vm_compute; repeat first [apply list_elem_of_here | apply list_elem_of_further].
Qed.

Lemma hexString_lower b :
  String.length (hexString b) = (2 * String.length b)%nat ∧
  Forall (λ c, c ∈ String.list_ascii_of_string "0123456789abcdef")
    (String.list_ascii_of_string (hexString b)).
Proof.
  induction b as [|a b [IHlen IHall]].
  - split; [done|constructor].
  - pose proof (byteOf_bound a) as Ha.
    change (hexString (String a b))
      with (String (hexDigit false (byteOf a `div` 16))
              (String (hexDigit false (byteOf a `mod` 16)) (hexString b))).
    cbn [String.length String.list_ascii_of_string].
    split; [rewrite IHlen; lia|].
    constructor; [apply hexDigit_lower; Z.div_mod_to_equations; lia|].
    constructor; [apply hexDigit_lower; Z.div_mod_to_equations; lia|done].
Qed.

(** X15. [memcachedCache] never sends the caller's key to memcached: both
    [get] and [set] send the digest of the key in lower-case hexadecimal,
    two characters per byte of the digest, and the two send the same key.
    So an item that [set] handed to the client, served back by the client
    in less than 50 ms, is what [get] returns, and the timeout counter
    stays as it was. *)
Theorem memcachedCache_key (m : memcachedCache) (tie : selectCase) (timeouts : Z)
    (k v : string) (expire : Z) :
  let item := memcachedCache_set md5Sum k v expire in
  let out := memcachedCache_get md5Sum m tie timeouts k in
  clientKeys out = [Key item] ∧
  String.length (Key item) = (2 * String.length (md5Sum k))%nat ∧
  Forall (λ c, c ∈ String.list_ascii_of_string "0123456789abcdef")
    (String.list_ascii_of_string (Key item)) ∧
  (∀ latency, client m (Key item) = Returns latency (GetOk item) →
     latency < 50 * Millisecond →
     result out = Some v ∧ timeoutsAfter out = timeouts).
Proof.
  intros item out.
  destruct (hexString_lower (md5Sum k)) as [Hlen Hall].
  split_and!; try done.
  - unfold out, memcachedCache_get. simpl.
    destruct (selectFires _ _); [done|]. by destruct (client m _) as [? []|].
  - intros latency Hrun Hfast. unfold out, memcachedCache_get.
    simpl in Hrun. rewrite Hrun. simpl. by rewrite decide_True by done.
Qed.

End memcached_properties.

(* ------------------------------------------------------------------ *)
(** ** main.go: what a render request leaves behind *)

Section render_accounting.
Import GoNum GoStr Cache Cairo Main.
Context {C : Type} `{!bytesCache C}.
Variable X : collaborators.

(** The steps of the fetch loop append their calls to the log and count
    them, in [stats.zipperRequests] and in the counter of their kind; they
    leave the request counters and the query cache alone. *)
Lemma findGlob_accounted useCache query (fs : fetchState (C := C)) :
  let fs' := (findGlob X useCache query fs).2 in
  ∃ calls,
    zipperLog (srv fs') = zipperLog (srv fs) ++ calls ∧
    zipperRequests fs' = zipperRequests fs + Z.of_nat (length calls) ∧
    FindRequests (Metrics (srv fs')) =
      FindRequests (Metrics (srv fs)) + Z.of_nat (length (filter (λ c, isFind c) calls)) ∧
    RenderRequests (Metrics (srv fs')) + Z.of_nat (length (filter (λ c, isFind c) calls)) =
      RenderRequests (Metrics (srv fs)) + Z.of_nat (length calls) ∧
    Requests (Metrics (srv fs')) = Requests (Metrics (srv fs)) ∧
    RequestCacheHits (Metrics (srv fs')) = RequestCacheHits (Metrics (srv fs)) ∧
    queryCache (srv fs') = queryCache (srv fs).
Proof.
  unfold findGlob, callFind, setFindCache, addFindCacheHit.
  destruct (get (findCache (srv fs)) query) as [response|]; simpl;
    [destruct useCache; simpl; [destruct (globUnmarshal X response); simpl|]|];
    try (exists []; rewrite app_nil_r; simpl; split_and!; (done || lia));
    exists [CallFind query];
    (destruct (zipperFind X _ query) as [glob|]; simpl;
     [destruct (globMarshal X glob); simpl|]);
    split_and!; (done || lia).
Qed.

Lemma renderLeaf_accounted from until matches (fs : fetchState (C := C)) rs :
  let fs' := (foldl (renderLeaf X from until) (fs, rs) matches).1 in
  ∃ calls,
    zipperLog (srv fs') = zipperLog (srv fs) ++ calls ∧
    zipperRequests fs' = zipperRequests fs + Z.of_nat (length calls) ∧
    FindRequests (Metrics (srv fs')) =
      FindRequests (Metrics (srv fs)) + Z.of_nat (length (filter (λ c, isFind c) calls)) ∧
    RenderRequests (Metrics (srv fs')) + Z.of_nat (length (filter (λ c, isFind c) calls)) =
      RenderRequests (Metrics (srv fs)) + Z.of_nat (length calls) ∧
    Requests (Metrics (srv fs')) = Requests (Metrics (srv fs)) ∧
    RequestCacheHits (Metrics (srv fs')) = RequestCacheHits (Metrics (srv fs)) ∧
    queryCache (srv fs') = queryCache (srv fs).
Proof.
  revert fs rs. induction matches as [|m matches IH]; intros fs rs; simpl.
  - exists []. rewrite app_nil_r. simpl. split_and!; (done || lia).
  - destruct (renderLeaf X from until (fs, rs) m) as [fs1 rs1] eqn:Hstep.
    destruct (IH fs1 rs1) as (calls & H1 & H2 & H3 & H4 & H5 & H6 & H7).
    unfold renderLeaf, callRender in Hstep. simpl in Hstep.
    destruct (IsLeaf m); simplify_eq/=; [|by exists calls].
    exists (CallRender (Path m) from until :: calls).
    assert (Hf : filter (λ c, isFind c) (CallRender (Path m) from until :: calls)
                 = filter (λ c, isFind c) calls)
      by (rewrite filter_cons; by case_decide).
    rewrite Hf.
    split_and!; try done.
    + by rewrite H1, <- app_assoc.
    + rewrite H2. simpl. lia.
    + rewrite H4. simpl. lia.
Qed.

Lemma fetchMetric_accounted useCache from32 until32 (fs : fetchState (C := C)) m :
  let fs' := fetchMetric X useCache from32 until32 fs m in
  ∃ calls,
    zipperLog (srv fs') = zipperLog (srv fs) ++ calls ∧
    zipperRequests fs' = zipperRequests fs + Z.of_nat (length calls) ∧
    FindRequests (Metrics (srv fs')) =
      FindRequests (Metrics (srv fs)) + Z.of_nat (length (filter (λ c, isFind c) calls)) ∧
    RenderRequests (Metrics (srv fs')) + Z.of_nat (length (filter (λ c, isFind c) calls)) =
      RenderRequests (Metrics (srv fs)) + Z.of_nat (length calls) ∧
    Requests (Metrics (srv fs')) = Requests (Metrics (srv fs)) ∧
    RequestCacheHits (Metrics (srv fs')) = RequestCacheHits (Metrics (srv fs)) ∧
    queryCache (srv fs') = queryCache (srv fs).
Proof.
  unfold fetchMetric.
  destruct (metricMap fs !! _); simpl.
  { exists []. rewrite app_nil_r. simpl. split_and!; (done || lia). }
  destruct (findGlob_accounted useCache (metric m) fs)
    as (c1 & H1 & H2 & H3 & H4 & H5 & H6 & H7).
  destruct (findGlob X useCache (metric m) fs) as [[glob|] fs1]; simpl in *;
    [|exists c1; by split_and!].
  destruct (renderLeaf_accounted (wrap32 (from m + from32)) (wrap32 (until m + until32))
              (Matches glob) fs1 []) as (c2 & G1 & G2 & G3 & G4 & G5 & G6 & G7).
  destruct (foldl _ (fs1, []) (Matches glob)) as [fs2 rs]. simpl in *.
  exists (c1 ++ c2). rewrite filter_app, !length_app.
  split_and!; try congruence; try lia.
  by rewrite G1, H1, <- app_assoc.
Qed.

Lemma fetchLoop_accounted useCache from32 until32 ms (fs : fetchState (C := C)) :
  let fs' := foldl (fetchMetric X useCache from32 until32) fs ms in
  ∃ calls,
    zipperLog (srv fs') = zipperLog (srv fs) ++ calls ∧
    zipperRequests fs' = zipperRequests fs + Z.of_nat (length calls) ∧
    FindRequests (Metrics (srv fs')) =
      FindRequests (Metrics (srv fs)) + Z.of_nat (length (filter (λ c, isFind c) calls)) ∧
    RenderRequests (Metrics (srv fs')) + Z.of_nat (length (filter (λ c, isFind c) calls)) =
      RenderRequests (Metrics (srv fs)) + Z.of_nat (length calls) ∧
    Requests (Metrics (srv fs')) = Requests (Metrics (srv fs)) ∧
    RequestCacheHits (Metrics (srv fs')) = RequestCacheHits (Metrics (srv fs)) ∧
    queryCache (srv fs') = queryCache (srv fs).
Proof.
  revert fs. induction ms as [|m ms IH]; intros fs; simpl.
  - exists []. rewrite app_nil_r. simpl. split_and!; (done || lia).
  - destruct (fetchMetric_accounted useCache from32 until32 fs m)
      as (c1 & H1 & H2 & H3 & H4 & H5 & H6 & H7).
    destruct (IH (fetchMetric X useCache from32 until32 fs m))
      as (c2 & G1 & G2 & G3 & G4 & G5 & G6 & G7).
    simpl in *.
    exists (c1 ++ c2). rewrite filter_app, !length_app.
    split_and!; try congruence; try lia.
    by rewrite G1, H1, <- app_assoc.
Qed.

Lemma targetsLoop_accounted useCache maxDataPoints from32 until32 targets results
    (fs : fetchState (C := C)) :
  let fs' := (targetsLoop X useCache maxDataPoints from32 until32 targets results fs).2 in
  ∃ calls,
    zipperLog (srv fs') = zipperLog (srv fs) ++ calls ∧
    zipperRequests fs' = zipperRequests fs + Z.of_nat (length calls) ∧
    FindRequests (Metrics (srv fs')) =
      FindRequests (Metrics (srv fs)) + Z.of_nat (length (filter (λ c, isFind c) calls)) ∧
    RenderRequests (Metrics (srv fs')) + Z.of_nat (length (filter (λ c, isFind c) calls)) =
      RenderRequests (Metrics (srv fs)) + Z.of_nat (length calls) ∧
    Requests (Metrics (srv fs')) = Requests (Metrics (srv fs)) ∧
    RequestCacheHits (Metrics (srv fs')) = RequestCacheHits (Metrics (srv fs)) ∧
    queryCache (srv fs') = queryCache (srv fs).
Proof.
  revert results fs. induction targets as [|target targets IH]; intros results fs; simpl.
  - exists []. rewrite app_nil_r. simpl. split_and!; (done || lia).
  - destruct (parseExpr X _) as [[exp e] err]. case_decide; simpl.
    { exists []. rewrite app_nil_r. simpl. split_and!; (done || lia). }
    destruct (fetchLoop_accounted useCache from32 until32 (metrics X exp) fs)
      as (c1 & H1 & H2 & H3 & H4 & H5 & H6 & H7).
    match goal with
    | |- context [targetsLoop _ _ _ _ _ targets ?r ?f] =>
        destruct (IH r f) as (c2 & G1 & G2 & G3 & G4 & G5 & G6 & G7)
    end.
    simpl in *.
    exists (c1 ++ c2). rewrite filter_app, !length_app.
    split_and!; try congruence; try lia.
    by rewrite G1, H1, <- app_assoc.
Qed.


(** X16. The bookkeeping of [renderHandler] agrees with what it did. On
    every request the handler adds the calls it makes to the zipper to the
    log, [stats.zipperRequests] is their number, [Metrics.Requests] goes up
    by one, and [Metrics.FindRequests] and [Metrics.RenderRequests] go up
    by the number of [Find] calls and of [Render] calls. *)
Theorem renderHandler_accounting (ps : list (string * string))
    (nowFrom nowUntil : Z) (s : server C) :
  let r := renderHandler X ps nowFrom nowUntil s in
  ∃ calls,
    zipperLog (after r) = zipperLog s ++ calls ∧
    statsZipperRequests r = Z.of_nat (length calls) ∧
    Requests (Metrics (after r)) = Requests (Metrics s) + 1 ∧
    FindRequests (Metrics (after r)) =
      FindRequests (Metrics s) + Z.of_nat (length (filter (λ c, isFind c) calls)) ∧
    RenderRequests (Metrics (after r)) =
      RenderRequests (Metrics s)
      + (Z.of_nat (length calls) - Z.of_nat (length (filter (λ c, isFind c) calls))).
Proof.
  intros r. unfold r, renderHandler.
  set (form := parseParams ps).
  rewrite cached_lookup.
  destruct (if negb (truthyBool X (Get form "noCache")) then _ else None)
    as [response|]; simpl.
  { exists []. rewrite app_nil_r. simpl. split_and!; (done || lia). }
  case_decide; simpl.
  { exists []. rewrite app_nil_r. simpl. split_and!; (done || lia). }
  match goal with
  | |- context [targetsLoop _ ?u ?m ?f ?t ?ts ?rs ?fs] =>
      destruct (targetsLoop_accounted u m f t ts rs fs)
        as (calls & H1 & H2 & H3 & H4 & H5 & H6 & H7);
      destruct (targetsLoop X u m f t ts rs fs) as [[failure results] fs'] eqn:Hloop
  end.
  simpl in *. exists calls.
  destruct failure as [msg|]; simpl; [split_and!; (done || lia)|].
  case_decide; simpl; split_and!; (done || lia).
Qed.


End render_accounting.

(* ------------------------------------------------------------------ *)
(** ** main.go: the parameters a render request ignores *)

Section render_parameters.
Import GoNum GoStr Cache Cairo Main.
Context {C : Type} `{!bytesCache C}.
Variable X : collaborators.


End render_parameters.

Section render_parameters_example.
Import GoNum GoStr Cache Cairo Main Demo.


End render_parameters_example.

(* ------------------------------------------------------------------ *)
(** ** main.go: a render request with [noCache] *)

Section render_no_cache.
Import GoNum GoStr Cache Cairo Main.
Context {C1 C2 : Type} `{!bytesCache C1} `{!bytesCache C2}.
Variable X : collaborators.







End render_no_cache.

Section render_no_cache_example.
Import GoNum GoStr Cache Cairo Main Demo.


End render_no_cache_example.

(* ------------------------------------------------------------------ *)
(** ** main.go: a request repeated *)

Section render_repeat.
Import GoNum GoStr Cache Cairo Main.
Context {C : Type} `{!bytesCache C}.
Variable X : collaborators.


End render_repeat.

Section render_repeat_example.
Import GoNum GoStr Cache Cairo Main Demo.


End render_repeat_example.

(* ------------------------------------------------------------------ *)
(** ** main.go: the find cache in the fetch loop *)

Section find_cache.
Import GoNum GoStr Cache Cairo Main.
Context {C : Type} `{!bytesCache C}.
Variable X : collaborators.

(** X21. The find cache at work, with a cache that gives back what was
    set and a codec that decodes what it encoded. A find step that has no
    cached glob calls [Zipper.Find] once and stores the encoded response
    under the query for 300 seconds; the next find step for that query
    that uses the cache gets the same glob from the cache, calls nothing,
    and counts one find-cache hit. *)
Theorem findGlob_round_trip (useCache : bool) (query : string)
    (fs : fetchState (C := C)) (glob : GlobResponse) (b : string) :
  let o1 := findGlob X useCache query fs in
  let o2 := findGlob X true query o1.2 in
  (∀ (c : C) k v expire, get (set c k v expire) k = Some v) →
  (useCache = false ∨ get (findCache (srv fs)) query = None) →
  zipperFind X (zipperLog (srv fs)) query = Some glob →
  globMarshal X glob = Some b →
  globUnmarshal X b = Some glob →
  o1.1 = Some glob ∧
  zipperLog (srv o1.2) = zipperLog (srv fs) ++ [CallFind query] ∧
  findCache (srv o1.2) = set (findCache (srv fs)) query b 300 ∧
  o2.1 = Some glob ∧
  zipperLog (srv o2.2) = zipperLog (srv o1.2) ∧
  zipperRequests o2.2 = zipperRequests o1.2 ∧
  FindCacheHits (Metrics (srv o2.2)) = FindCacheHits (Metrics (srv o1.2)) + 1.
Proof.
  intros o1 o2 Hlaw Hmiss Hfind Hmarshal Hdecode.
  assert (Ho1 : o1 = (Some glob,
            FetchState (metricMap fs)
              (setFindCache query b (5 * 60) (callFind X query (srv fs)).2)
              (zipperRequests fs + 1))).
  { unfold o1, findGlob.
    assert (Hcached : match get (findCache (srv fs)) query with
                      | Some response => if useCache then Some response else None
                      | None => None
                      end = None).
    { destruct Hmiss as [-> | ->]; [by destruct (get _ _)|done]. }
    rewrite Hcached. unfold callFind. simpl. by rewrite Hfind, Hmarshal. }
  assert (Ho2 : o2 = (Some glob,
            FetchState (metricMap o1.2) (addFindCacheHit (srv o1.2)) (zipperRequests o1.2))).
  { unfold o2, findGlob. rewrite Ho1. simpl. rewrite Hlaw. simpl. by rewrite Hdecode. }
  rewrite Ho2. rewrite Ho1. simpl. by split_and!.
Qed.

End find_cache.

Section find_cache_example.
Import GoNum GoStr Cache Cairo Main Demo DemoCodec.

Lemma findGlob_round_trip_witness :
  let fs := FetchState ∅ memServer 0 in
  let o1 := findGlob demoCodec true "a.*" fs in
  let o2 := findGlob demoCodec true "a.*" o1.2 in
  o2.1 = Some (MkGlobResponse "a.*" [MkGlobMatch "a.b" true]) ∧
  zipperLog (srv o2.2) = [CallFind "a.*"].
Proof.
  intros fs o1 o2.
  assert (Hlaw : ∀ (c : expireCache) k v expire, get (set c k v expire) k = Some v)
    by (intros c k v expire; simpl; by rewrite lookup_insert_eq).
  assert (Hmiss : true = false ∨ get (findCache (srv fs)) "a.*" = None)
    by (right; reflexivity).
  destruct (findGlob_round_trip demoCodec true "a.*" fs
              (MkGlobResponse "a.*" [MkGlobMatch "a.b" true]) "a.*"
              Hlaw Hmiss eq_refl eq_refl eq_refl) as (_ & Hlog1 & _ & Hglob & Hlog2 & _).
  split; [exact Hglob|]. fold o1 in Hlog1, Hlog2. fold o2 in Hlog2.
  rewrite Hlog2, Hlog1. reflexivity.
Defined.

End find_cache_example.

(* ------------------------------------------------------------------ *)
(** ** cairo.go: values flagged absent *)

Section absent_values.
Import GoNum Cairo.

Lemma presentValues_ext (vs vs' : list float) (absent : list bool) :
  length vs' = length vs →
  (∀ i, absent !! i = Some false → vs' !! i = vs !! i) →
  presentValues vs' absent = presentValues vs absent.
Proof.
  revert vs' absent. induction vs as [|x vs IH]; intros [|x' vs'] absent Hlen Hsame;
    simplify_eq/=; [done|].
  destruct absent as [|a absent]; [done|].
  assert (Hrest : presentValues vs' absent = presentValues vs absent).
  { apply IH; [done|]. intros i Hi. apply (Hsame (S i) Hi). }
  destruct a; simpl.
  - by rewrite !andb_false_r.
  - pose proof (Hsame 0%nat eq_refl) as H0. simplify_eq/=. by rewrite Hrest.
Qed.

(** X22. A value in a slot that is flagged absent never shows in the
    aggregated values: two series that differ only in the values of their
    absent slots have the same [AggregatedValues] (both panic, or both
    return the same slice), for every [valuesPerPoint]. *)
Theorem AggregatedValues_ignores_absent (r : metricData) (vs : list float) :
  let r' := MetricData (Name r) (StartTime r) (StopTime r) (StepTime r) vs
              (IsAbsent r) (valuesPerPoint r) (xStep r) None in
  aggregatedValues r = None →
  length (Values r) = length (IsAbsent r) →
  length vs = length (Values r) →
  (∀ i, IsAbsent r !! i = Some false → vs !! i = Values r !! i) →
  fst <$> AggregatedValues r' = fst <$> AggregatedValues r.
Proof.
  intros r' Hmemo Hlen Hvs Hsame.
  assert (Hc : computeAggregated r' = computeAggregated r).
  { destruct (decide (valuesPerPoint r = 1 ∨ valuesPerPoint r = 0)) as [Hraw|Hcons].
    - rewrite (computeAggregated_raw r Hraw Hlen).
      rewrite (computeAggregated_raw r') by (simpl; (done || congruence)).
      simpl. f_equal. apply list_eq. intros i. rewrite !lookup_zip_with.
      destruct (IsAbsent r !! i) as [a|] eqn:Ha.
      + destruct a.
        * destruct (vs !! i) eqn:Hv1, (Values r !! i) eqn:Hv2; simpl; try done.
          -- apply lookup_lt_Some in Hv1. apply lookup_ge_None in Hv2. lia.
          -- apply lookup_lt_Some in Hv2. apply lookup_ge_None in Hv1. lia.
        * by rewrite (Hsame i Ha).
      + by destruct (vs !! i), (Values r !! i).
    - destruct (decide (valuesPerPoint r < 0)) as [Hneg|Hpos].
      + unfold computeAggregated. simpl.
        by rewrite !(decide_False (P := _ ∨ _)), !(decide_True (P := _ < 0)) by done.
      + rewrite (computeAggregated_buckets r) by (done || lia).
        rewrite (computeAggregated_buckets r') by (simpl; (congruence || lia)).
        f_equal.
        assert (Hcount : bucketCount r' = bucketCount r)
          by (unfold bucketCount; simpl; by rewrite Hvs).
        rewrite Hcount. apply map_ext. intros j.
        unfold bucketMean, mean, fsum. simpl.
        set (vpp := Z.to_nat (valuesPerPoint r)).
        assert (Hp : presentValues (bucket vpp j vs) (bucket vpp j (IsAbsent r)) =
                     presentValues (bucket vpp j (Values r)) (bucket vpp j (IsAbsent r))).
        { apply presentValues_ext.
          - unfold bucket. by rewrite !length_take, !length_drop, Hvs.
          - intros i Hi. apply bucket_lookup in Hi as [Hi Hlt].
            unfold bucket. rewrite !lookup_take_lt, !lookup_drop by done.
            by apply Hsame. }
        by rewrite Hp. }
  unfold AggregatedValues. simpl. rewrite Hmemo, Hc.
  by destruct (computeAggregated r).
Qed.

Lemma AggregatedValues_ignores_absent_witness :
  let r := MetricData "x" 0 180 60 [1; 2; 3]%float [false; true; false] 2 0%float None in
  let r' := MetricData "x" 0 180 60 [1; 99; 3]%float [false; true; false] 2 0%float None in
  fst <$> AggregatedValues r' = fst <$> AggregatedValues r.
Proof.
  intros r r'.
  apply (AggregatedValues_ignores_absent r [1; 99; 3]%float); try reflexivity.
  intros [|[|[|i]]] Hi; simpl in *; (done || discriminate).
Defined.

End absent_values.
